(** * am-zy-components: Modal, Alert, Button, Card and the animation presets

    A shallow embedding of the library's stateful logic (the Modal's
    scroll lock and focus management, the Alert's dismissal) and of its
    render functions (Button, Card, the compound sub-regions), followed by
    the properties the specification states about them.

    Conventions of the embedding.
    - A mutable module-level variable or a [useRef]/[useState] cell is a
      field of a state record; a handler is a function from state to state.
    - Calls into the platform that the code makes for their effect
      ([preventDefault], [focus], the [onClose]/[onDismiss] callbacks) are
      appended, in order, to a log carried by the state.  What a [focus]
      call does to the active element is the platform's answer on the
      page the state carries.
    - An event handler is a closure of the render that created it: it
      sees the props and state cells of that render, and it is reached
      through the element that carries it in the DOM.
    - A JavaScript object used as a bag of attributes is a [gmap string _];
      object spread [{...a, ...b}] is the union in which [b] wins.
    - [null]/[undefined] is [None].
    - A rendered element is its tag, its props object and its children;
      [ref] and [key], which React consumes itself, are not in the props
      object. *)

From Stdlib Require Import ZArith QArith Lia.
From stdpp Require Import gmap strings list.

Local Open Scope string_scope.
Local Open Scope list_scope.
Local Open Scope Z_scope.

(* ===================================================================== *)
(** * Part I. The embedding                                               *)
(* ===================================================================== *)

(** ** Body scroll lock (Modal.tsx, module-level state) *)

Module ScrollLock.

(** [let scrollLockCounter = 0], [let originalBodyStyle: string | null = null]
    and the one platform cell the two functions touch,
    [document.body.style.overflow] (the empty string when the inline
    property is not set). *)
Record State := mkState {
  scrollLockCounter : Z;
  originalBodyStyle : option string;
  bodyOverflow : string
}.

(** The state at module load, on a page whose body carries [overflow]. *)
Definition initial (overflow : string) : State := mkState 0 None overflow.

Definition lockBodyScroll (s : State) : State :=
  let s1 :=
    if scrollLockCounter s =? 0
    then mkState (scrollLockCounter s) (Some (bodyOverflow s)) "hidden"
    else s in
  mkState (scrollLockCounter s1 + 1) (originalBodyStyle s1) (bodyOverflow s1).

Definition unlockBodyScroll (s : State) : State :=
  let c := scrollLockCounter s - 1 in
  if c =? 0 then
    match originalBodyStyle s with
    | Some saved => mkState c None saved
    | None => mkState c None ""          (* body.style.removeProperty('overflow') *)
    end
  else mkState c (originalBodyStyle s) (bodyOverflow s).

(** The library holds the override: it has written ['hidden'] and keeps the
    page's own value for restoration. *)
Definition scrollLocked (s : State) : Prop :=
  bodyOverflow s = "hidden" ∧ originalBodyStyle s ≠ None.

(** Several Modal instances share the state above.  The Modal's effect
    runs [lockBodyScroll] when its [isOpen] becomes true and its cleanup
    runs [unlockBodyScroll] when it stops being open; an instance that is
    already open has no effect to run, and one that is not open has no
    cleanup. *)
Inductive Event := Open (m : nat) | Close (m : nat).

Record World := mkWorld {
  lock : State;
  openModals : list nat
}.

Definition initialWorld (overflow : string) : World :=
  mkWorld (initial overflow) [].

Definition step (w : World) (e : Event) : World :=
  match e with
  | Open m =>
      if bool_decide (m ∈ openModals w) then w
      else mkWorld (lockBodyScroll (lock w)) (m :: openModals w)
  | Close m =>
      if bool_decide (m ∈ openModals w)
      then mkWorld (unlockBodyScroll (lock w))
                   (List.filter (fun x => negb (Nat.eqb x m)) (openModals w))
      else w
  end.

Definition run (w : World) (evs : list Event) : World := foldl step w evs.

(** What holds of the shared state whenever modals have only been opened
    and closed through their effects, on a page that started with [s0]. *)
Definition lock_inv (s0 : string) (w : World) : Prop :=
  NoDup (openModals w)
  ∧ scrollLockCounter (lock w) = Z.of_nat (length (openModals w))
  ∧ match openModals w with
    | [] => originalBodyStyle (lock w) = None ∧ bodyOverflow (lock w) = s0
    | _ :: _ => originalBodyStyle (lock w) = Some s0
                ∧ bodyOverflow (lock w) = "hidden"
    end.

End ScrollLock.

(** ** The part of the DOM the Modal looks at *)

Module Dom.

(** An element as the code observes it: its identity (what [===] compares),
    its local name, its attributes, the two computed-style properties read
    by the focus filter and whether it is an [HTMLElement]. *)
Record Element := mkElement {
  eid : nat;
  tagName : string;
  attrs : gmap string string;
  display : string;        (* getComputedStyle(element).display *)
  visibility : string;     (* getComputedStyle(element).visibility *)
  isHTMLElement : bool     (* element instanceof HTMLElement *)
}.

#[warnings="-register-all"] Inductive Node := mkNode (element : Element) (childNodes : list Node).

Definition elementOf (n : Node) : Element :=
  match n with mkNode e _ => e end.

(** The descendants of a node in document order (the node itself is not
    one of them). *)
Fixpoint descendants (n : Node) : list Element :=
  match n with
  | mkNode _ cs => List.flat_map (fun c => elementOf c :: descendants c) cs
  end.

Definition hasAttribute (name : string) (e : Element) : bool :=
  match attrs e !! name with Some _ => true | None => false end.

(** [a === b] on element references that may be [null]. *)
Definition sameElement (a b : option Element) : bool :=
  match a, b with
  | Some x, Some y => Nat.eqb (eid x) (eid y)
  | None, None => true
  | _, _ => false
  end.

(** An element is attached to a document when it is the root or one of
    its descendants. *)
Definition attached (e : Element) (root : Node) : bool :=
  existsb (fun x => Nat.eqb (eid x) (eid e)) (elementOf root :: descendants root).

(** The fragment of CSS selectors the focus trap uses. *)
Inductive SimpleSelector :=
| TypeSel (tag : string)                (* button *)
| HasAttr (name : string)               (* [href] *)
| AttrIs (name value : string)          (* [tabindex="-1"] *)
| NotSel (s : SimpleSelector).          (* :not(...) *)

Fixpoint matchesSimple (s : SimpleSelector) (e : Element) : bool :=
  match s with
  | TypeSel t => String.eqb (tagName e) t
  | HasAttr a => hasAttribute a e
  | AttrIs a v =>
      match attrs e !! a with
      | Some v' => String.eqb v' v
      | None => false
      end
  | NotSel s' => negb (matchesSimple s' e)
  end.

(** A compound selector is a conjunction, a selector list a disjunction. *)
Definition matchesCompound (c : list SimpleSelector) (e : Element) : bool :=
  forallb (fun s => matchesSimple s e) c.

Definition matchesList (sel : list (list SimpleSelector)) (e : Element) : bool :=
  existsb (fun c => matchesCompound c e) sel.

Definition querySelectorAll (container : Node)
    (sel : list (list SimpleSelector)) : list Element :=
  List.filter (matchesList sel) (descendants container).

(** [parent.appendChild(child)] *)
Definition appendChild (child parent : Node) : Node :=
  match parent with mkNode e cs => mkNode e (cs ++ [child]) end.

(** The tree in which the subtree of the element [id] is now [new]. *)
Fixpoint replaceNode (id : nat) (new : Node) (n : Node) : Node :=
  match n with
  | mkNode e cs =>
      if Nat.eqb (eid e) id then new
      else mkNode e (map (replaceNode id new) cs)
  end.

(** The page as the platform holds it: the document tree as it is now, and
    which of its elements could take focus (an element that is disabled,
    not rendered or not a focusable area cannot). *)
Record Page := mkPage {
  document : Node;
  canTakeFocus : Element → bool
}.

(** Whether [e.focus()] moves focus to [e]: the platform ignores the call
    on an element that is not in the document or cannot take focus. *)
Definition takesFocus (pg : Page) (e : Element) : bool :=
  attached e (document pg) && canTakeFocus pg e.

Definition formControl (e : Element) : bool :=
  existsb (String.eqb (tagName e)) ["button"; "input"; "select"; "textarea"].

(** The focusable areas of a page without styles or scripts of its own, as
    far as the data of an element shows them: the element is rendered, is
    neither inert nor a disabled form control nor a hidden input, and has a
    [tabindex] or is focusable by its kind. *)
Definition focusableArea (e : Element) : bool :=
  negb (String.eqb (display e) "none")
  && negb (String.eqb (visibility e) "hidden")
  && negb (hasAttribute "inert" e)
  && negb (formControl e && hasAttribute "disabled" e)
  && negb (String.eqb (tagName e) "input"
           && match attrs e !! "type" with
              | Some v => String.eqb v "hidden"
              | None => false
              end)
  && (hasAttribute "tabindex" e
      || formControl e
      || String.eqb (tagName e) "summary"
      || (String.eqb (tagName e) "a" && hasAttribute "href" e)
      || ((String.eqb (tagName e) "audio" || String.eqb (tagName e) "video")
          && hasAttribute "controls" e)
      || match attrs e !! "contenteditable" with
         | Some v => negb (String.eqb v "false")
         | None => false
         end).

End Dom.

(** ** utils/animations.ts *)

Module Animations.
Import Dom.

(** The global [window], absent outside a browser. *)
Record Window := mkWindow {
  prefersReducedMotion : bool;   (* matchMedia('(prefers-reduced-motion: reduce)').matches *)
  innerWidth : Z
}.

Inductive Ease :=
| CubicBezier (a b c d : Q)
| EaseName (name : string).

Inductive Count := Finite (q : Q) | Infinity.

Record Transition := mkTransition {
  duration : option Q;
  ease : option Ease;
  repeat : option Count;
  staggerChildren : option Q;
  delayChildren : option Q;
  delay : option Q
}.

Definition plain (d : Q) (e : Ease) : Transition :=
  mkTransition (Some d) (Some e) None None None None.

Definition standardEase : Ease := CubicBezier 0.4 0 0.2 1.

Definition transitions_fast : Transition := plain 0.15 standardEase.
Definition transitions_base : Transition := plain 0.3 standardEase.
Definition transitions_slow : Transition := plain 0.6 standardEase.

Definition shouldReduceMotion (w : option Window) : bool :=
  match w with
  | None => false                       (* typeof window === 'undefined' *)
  | Some win => prefersReducedMotion win
  end.

(** [{ ...transition, duration: 0.01 }] *)
Definition withDuration (t : Transition) (d : Q) : Transition :=
  mkTransition (Some d) (ease t) (repeat t)
               (staggerChildren t) (delayChildren t) (delay t).

Definition getTransition (w : option Window) (t : Transition) : Transition :=
  if shouldReduceMotion w then withDuration t 0.01 else t.

Inductive Value := Num (q : Q) | Str (s : string).

(** One animation target: the animated properties and its transition. *)
Record Target := mkTarget {
  values : list (string * Value);
  transition : option Transition
}.

Record Variants := mkVariants {
  v_initial : option Target;
  v_animate : option Target;
  v_exit : option Target;
  v_hover : option Target;
  v_tap : option Target
}.

(** The presets are module-level constants: every [getTransition] and
    [shouldReduceMotion] call in them is made once, when the module is
    evaluated.  [w] is the global [window] at that moment. *)
Section Presets.
Variable w : option Window.

Definition fadeInUp : Variants :=
  mkVariants
    (Some (mkTarget [("opacity", Num 0); ("y", Num 60)] None))
    (Some (mkTarget [("opacity", Num 1); ("y", Num 0)]
                    (Some (getTransition w transitions_slow))))
    None None None.

Definition fadeIn : Variants :=
  mkVariants
    (Some (mkTarget [("opacity", Num 0)] None))
    (Some (mkTarget [("opacity", Num 1)]
                    (Some (getTransition w transitions_base))))
    None None None.

Definition slideUp : Variants :=
  mkVariants
    (Some (mkTarget [("opacity", Num 0); ("y", Num 20)] None))
    (Some (mkTarget [("opacity", Num 1); ("y", Num 0)]
                    (Some (getTransition w transitions_base))))
    None None None.

Definition staggerContainer : Variants :=
  mkVariants
    None
    (Some (mkTarget []
       (Some (mkTransition None None None (Some 0.1%Q) (Some 0.1%Q) None))))
    None None None.

Definition buttonHover : Variants :=
  mkVariants None None None
    (Some (mkTarget [("scale", Num (if shouldReduceMotion w then 1 else 1.02))]
                    (Some (getTransition w transitions_fast))))
    (Some (mkTarget [("scale", Num (if shouldReduceMotion w then 1 else 0.98))]
                    (Some (getTransition w transitions_fast)))).

Definition hoverLift : Variants :=
  mkVariants None None None
    (Some (mkTarget [("y", Num (if shouldReduceMotion w then 0 else -2))]
                    (Some (getTransition w transitions_base))))
    None.

Definition modalBackdrop : Variants :=
  mkVariants
    (Some (mkTarget [("opacity", Num 0)] None))
    (Some (mkTarget [("opacity", Num 1)]
                    (Some (getTransition w transitions_base))))
    (Some (mkTarget [("opacity", Num 0)]
                    (Some (getTransition w transitions_base))))
    None None.

Definition modalEnter : Variants :=
  mkVariants
    (Some (mkTarget [("scale", Num 0.9); ("opacity", Num 0); ("y", Num 20)]
                    None))
    (Some (mkTarget [("scale", Num 1); ("opacity", Num 1); ("y", Num 0)]
                    (Some (getTransition w transitions_base))))
    (Some (mkTarget [("scale", Num 0.9); ("opacity", Num 0); ("y", Num (-10))]
                    (Some (getTransition w transitions_fast))))
    None None.

Definition modalMobileSlide : Variants :=
  mkVariants
    (Some (mkTarget [("opacity", Num 0); ("y", Str "100%")] None))
    (Some (mkTarget [("opacity", Num 1); ("y", Num 0)]
       (Some (getTransition w (plain 0.4 (CubicBezier 0.32 0.72 0 1))))))
    (Some (mkTarget [("opacity", Num 0); ("y", Str "100%")]
                    (Some (getTransition w transitions_base))))
    None None.

Definition spinnerRotate : Variants :=
  mkVariants
    None
    (Some (mkTarget [("rotate", Num (if shouldReduceMotion w then 0 else 360))]
       (Some (mkTransition
                (Some (if shouldReduceMotion w then 0 else 1)%Q)
                (Some (EaseName "linear"))
                (Some (if shouldReduceMotion w then Finite 0 else Infinity))
                None None None))))
    None None None.

Definition alertSlideIn : Variants :=
  mkVariants
    (Some (mkTarget [("opacity", Num 0); ("y", Num (-20)); ("scale", Num 0.95)]
                    None))
    (Some (mkTarget [("opacity", Num 1); ("y", Num 0); ("scale", Num 1)]
                    (Some (getTransition w transitions_base))))
    (Some (mkTarget [("opacity", Num 0); ("scale", Num 0.9); ("y", Num (-10))]
                    (Some (getTransition w transitions_fast))))
    None None.

Definition toastSlideIn : Variants :=
  mkVariants
    (Some (mkTarget [("opacity", Num 0); ("x", Num 300); ("scale", Num 0.9)]
                    None))
    (Some (mkTarget [("opacity", Num 1); ("x", Num 0); ("scale", Num 1)]
       (Some (getTransition w (plain 0.4 (CubicBezier 0.36 0.66 0.04 1))))))
    (Some (mkTarget [("opacity", Num 0); ("x", Num 300); ("scale", Num 0.9)]
                    (Some (getTransition w transitions_base))))
    None None.

(** [export const presets = { ... }], in the order of the source. *)
Definition presets : list (string * Variants) :=
  [ ("fadeInUp", fadeInUp); ("fadeIn", fadeIn); ("slideUp", slideUp);
    ("staggerContainer", staggerContainer); ("buttonHover", buttonHover);
    ("hoverLift", hoverLift); ("modalBackdrop", modalBackdrop);
    ("modalEnter", modalEnter); ("modalMobileSlide", modalMobileSlide);
    ("spinnerRotate", spinnerRotate); ("alertSlideIn", alertSlideIn);
    ("toastSlideIn", toastSlideIn) ].

End Presets.

(** [createVariant(initial, animate, exit?, transition = transitions.base)];
    [w] is the global [window] when it is called. *)
Definition createVariant (w : option Window)
    (initial : Target) (animate : list (string * Value))
    (exit : option (list (string * Value))) (t : option Transition)
    : Variants :=
  let t' := getTransition w (default transitions_base t) in
  mkVariants (Some initial)
             (Some (mkTarget animate (Some t')))
             ((fun e => mkTarget e (Some t')) <$> exit)
             None None.

(** The transitions a set of variants carries. *)
Definition transitionsOf (v : Variants) : list Transition :=
  omap (fun t => t ≫= transition)
       [v_initial v; v_animate v; v_exit v; v_hover v; v_tap v].

(** The presets whose transitions are built with [getTransition]. *)
Definition getTransitionPresets (w : option Window) : list (string * Variants) :=
  [ ("fadeInUp", fadeInUp w); ("fadeIn", fadeIn w); ("slideUp", slideUp w);
    ("buttonHover", buttonHover w); ("hoverLift", hoverLift w);
    ("modalBackdrop", modalBackdrop w); ("modalEnter", modalEnter w);
    ("modalMobileSlide", modalMobileSlide w);
    ("alertSlideIn", alertSlideIn w); ("toastSlideIn", toastSlideIn w) ].

(** The durations of the transitions each of them carries. *)
Definition durationsOf (ps : list (string * Variants))
    : list (string * list (option Q)) :=
  map (fun nv => (fst nv, map duration (transitionsOf (snd nv)))) ps.

End Animations.

(** ** What a component returns *)

Module React.

Inductive PropValue :=
| VStr (s : string)
| VBool (b : bool)
| VNum (q : Q)
| VFn (handler : nat)                       (* a callback, by identity *)
| VVariants (v : Animations.Variants)
| VTarget (t : Animations.Target)
| VTransition (t : Animations.Transition).

#[warnings="-register-all"] Inductive ReactNode :=
| RUndefined
| RNull
| RBool (b : bool)
| RText (s : string)
| RNumber (n : Z)
| RGiven (id : nat)                         (* an element made by the caller *)
| RElement (tag : string) (props : gmap string PropValue)
           (children : list ReactNode).

(** JavaScript truthiness of a node, for [node && <jsx/>]. *)
Definition truthy (n : ReactNode) : bool :=
  match n with
  | RUndefined | RNull => false
  | RBool b => b
  | RText s => negb (String.eqb s "")
  | RNumber n => negb (n =? 0)
  | RGiven _ | RElement _ _ _ => true
  end.

(** [cond && node] for a boolean [cond], and [a && b] for nodes. *)
Definition whenB (cond : bool) (n : ReactNode) : ReactNode :=
  if cond then n else RBool false.
Definition whenN (a b : ReactNode) : ReactNode :=
  if truthy a then b else a.

(** React renders nothing for [undefined], [null], [true] and [false]. *)
Definition rendersNothing (n : ReactNode) : bool :=
  match n with
  | RUndefined | RNull | RBool _ => true
  | _ => false
  end.

Definition tagOf (n : ReactNode) : option string :=
  match n with RElement t _ _ => Some t | _ => None end.
Definition propsOf (n : ReactNode) : gmap string PropValue :=
  match n with RElement _ ps _ => ps | _ => ∅ end.
Definition childrenOf (n : ReactNode) : list ReactNode :=
  match n with RElement _ _ cs => cs | _ => [] end.

(** [[a, b, ...].filter(Boolean).join(' ')] over entries that are a string,
    [false] or [undefined]. *)
Definition classNames (entries : list (option string)) : string :=
  String.concat " "
    (List.filter (fun c => negb (String.eqb c "")) (omap id entries)).

(** A props object from entries whose value may be [undefined]; an
    undefined entry is left out. *)
Definition object (entries : list (string * option PropValue))
    : gmap string PropValue :=
  list_to_map (omap (fun '(k, v) => pair k <$> v) entries).

(** [{...a, ...b}]: the entries of [b] win. *)
Definition spread (a b : gmap string PropValue) : gmap string PropValue :=
  b ∪ a.

(** The rest of a destructuring pattern: every property the pattern did
    not name. *)
Definition restOf (named : list string) (props : gmap string PropValue)
    : gmap string PropValue :=
  foldr delete props named.

(** A component either returns a node or throws. *)
Inductive Rendering :=
| Returns (node : ReactNode)
| Throws (message : string).

End React.

(** ** Modal.tsx: focus trap, dismissal, focus restoration *)

Module Modal.
Import Dom.

Inductive ModalSize := sm | md | lg.

(** A [React.RefObject<HTMLElement>] is read through its [current], which
    is [null] until the element it is given to has mounted. *)
Definition RefObject : Type := option Element.

Record ModalProps := mkModalProps {
  isOpen : bool;
  title : option string;
  size : option ModalSize;
  closeOnBackdropClick : option bool;
  closeOnEscape : option bool;
  initialFocusRef : option RefObject;
  finalFocusRef : option RefObject;
  mobileSlide : option bool;
  className : option string
}.

(** The destructuring defaults of the component's parameter list. *)
Definition sizeOf (p : ModalProps) : ModalSize := default md (size p).
Definition closeOnBackdropClickOf (p : ModalProps) : bool :=
  default true (closeOnBackdropClick p).
Definition closeOnEscapeOf (p : ModalProps) : bool :=
  default true (closeOnEscape p).
Definition mobileSlideOf (p : ModalProps) : bool :=
  default true (mobileSlide p).

(** [ref?.current] *)
Definition current (r : option RefObject) : option Element := r ≫= id.

(** Props in which only [isOpen] is given. *)
Definition onlyOpen (open : bool) : ModalProps :=
  mkModalProps open None None None None None None None None.

Inductive Effect :=
| PreventDefault                 (* event.preventDefault() *)
| OnClose                        (* onClose() *)
| Focus (e : Element).           (* e.focus() *)

Record KeyboardEvent := mkKeyboardEvent {
  key : string;
  shiftKey : bool
}.

(** The refs and state of one Modal instance, the platform cells its
    handlers read or write, and the log of the calls they make. *)
Record State := mkState {
  modalRef : option Node;                 (* the subtree modalRef.current is the root of *)
  backdropRef : option Element;
  previousActiveElement : option Element;
  focusableElements : list Element;
  firstFocusableElement : option Element;
  lastFocusableElement : option Element;
  isVisible : bool;
  keydownListeners : nat;                 (* handleKeyDown registrations on document *)
  focusTimeout : bool;                    (* the 10 ms timer is pending *)
  activeElement : option Element;         (* document.activeElement *)
  page : Page;                            (* the document and what can take focus in it *)
  scroll : ScrollLock.State;
  log : list Effect
}.

(** Assignment to one cell. *)
Definition set_modalRef v (s : State) : State :=
  mkState v (backdropRef s) (previousActiveElement s)
          (focusableElements s) (firstFocusableElement s) (lastFocusableElement s)
          (isVisible s) (keydownListeners s) (focusTimeout s)
          (activeElement s) (page s) (scroll s) (log s).
Definition set_backdropRef v (s : State) : State :=
  mkState (modalRef s) v (previousActiveElement s)
          (focusableElements s) (firstFocusableElement s) (lastFocusableElement s)
          (isVisible s) (keydownListeners s) (focusTimeout s)
          (activeElement s) (page s) (scroll s) (log s).
Definition set_previousActiveElement v (s : State) : State :=
  mkState (modalRef s) (backdropRef s) v
          (focusableElements s) (firstFocusableElement s) (lastFocusableElement s)
          (isVisible s) (keydownListeners s) (focusTimeout s)
          (activeElement s) (page s) (scroll s) (log s).
Definition set_focusableElements v (s : State) : State :=
  mkState (modalRef s) (backdropRef s) (previousActiveElement s)
          v (firstFocusableElement s) (lastFocusableElement s)
          (isVisible s) (keydownListeners s) (focusTimeout s)
          (activeElement s) (page s) (scroll s) (log s).
Definition set_firstFocusableElement v (s : State) : State :=
  mkState (modalRef s) (backdropRef s) (previousActiveElement s)
          (focusableElements s) v (lastFocusableElement s)
          (isVisible s) (keydownListeners s) (focusTimeout s)
          (activeElement s) (page s) (scroll s) (log s).
Definition set_lastFocusableElement v (s : State) : State :=
  mkState (modalRef s) (backdropRef s) (previousActiveElement s)
          (focusableElements s) (firstFocusableElement s) v
          (isVisible s) (keydownListeners s) (focusTimeout s)
          (activeElement s) (page s) (scroll s) (log s).
Definition set_isVisible v (s : State) : State :=
  mkState (modalRef s) (backdropRef s) (previousActiveElement s)
          (focusableElements s) (firstFocusableElement s) (lastFocusableElement s)
          v (keydownListeners s) (focusTimeout s)
          (activeElement s) (page s) (scroll s) (log s).
Definition set_keydownListeners v (s : State) : State :=
  mkState (modalRef s) (backdropRef s) (previousActiveElement s)
          (focusableElements s) (firstFocusableElement s) (lastFocusableElement s)
          (isVisible s) v (focusTimeout s)
          (activeElement s) (page s) (scroll s) (log s).
Definition set_focusTimeout v (s : State) : State :=
  mkState (modalRef s) (backdropRef s) (previousActiveElement s)
          (focusableElements s) (firstFocusableElement s) (lastFocusableElement s)
          (isVisible s) (keydownListeners s) v
          (activeElement s) (page s) (scroll s) (log s).
Definition set_activeElement v (s : State) : State :=
  mkState (modalRef s) (backdropRef s) (previousActiveElement s)
          (focusableElements s) (firstFocusableElement s) (lastFocusableElement s)
          (isVisible s) (keydownListeners s) (focusTimeout s)
          v (page s) (scroll s) (log s).
Definition set_page v (s : State) : State :=
  mkState (modalRef s) (backdropRef s) (previousActiveElement s)
          (focusableElements s) (firstFocusableElement s) (lastFocusableElement s)
          (isVisible s) (keydownListeners s) (focusTimeout s)
          (activeElement s) v (scroll s) (log s).
Definition set_scroll v (s : State) : State :=
  mkState (modalRef s) (backdropRef s) (previousActiveElement s)
          (focusableElements s) (firstFocusableElement s) (lastFocusableElement s)
          (isVisible s) (keydownListeners s) (focusTimeout s)
          (activeElement s) (page s) v (log s).
Definition set_log v (s : State) : State :=
  mkState (modalRef s) (backdropRef s) (previousActiveElement s)
          (focusableElements s) (firstFocusableElement s) (lastFocusableElement s)
          (isVisible s) (keydownListeners s) (focusTimeout s)
          (activeElement s) (page s) (scroll s) v.

Definition body : Element := mkElement 0 "body" ∅ "block" "visible" true.

(** A freshly mounted instance on a page where [active] has focus: the body
    holds that element, and the focusable areas are those of a page without
    styles or scripts of its own. *)
Definition initialState (active : option Element) (sc : ScrollLock.State)
    : State :=
  mkState None None None [] None None false 0 false active
          (mkPage (mkNode body (match active with
                                | Some a => [mkNode a []]
                                | None => []
                                end))
                  focusableArea)
          sc [].

Definition emit (e : Effect) (s : State) : State :=
  set_log (log s ++ [e]) s.

(** [e.focus()]: the call is recorded; [e] becomes the active element when
    the platform can move focus to it, and nothing else happens when it
    cannot (a detached or disabled element, say). *)
Definition focus (e : Element) (s : State) : State :=
  let s1 := emit (Focus e) s in
  if takesFocus (page s) e then set_activeElement (Some e) s1 else s1.

Arguments focus : simpl never.

(** [ref.current?.focus()] *)
Definition focusIfAny (e : option Element) (s : State) : State :=
  match e with
  | Some x => focus x s
  | None => s
  end.

Definition focusableSelectors : list (list SimpleSelector) :=
  [ [TypeSel "button"; NotSel (HasAttr "disabled")];
    [TypeSel "input"; NotSel (HasAttr "disabled")];
    [TypeSel "textarea"; NotSel (HasAttr "disabled")];
    [TypeSel "select"; NotSel (HasAttr "disabled")];
    [TypeSel "details"];
    [TypeSel "summary"; NotSel (HasAttr "disabled")];
    [TypeSel "a"; HasAttr "href"];
    [TypeSel "audio"; HasAttr "controls"];
    [TypeSel "video"; HasAttr "controls"];
    [HasAttr "contenteditable"; NotSel (AttrIs "contenteditable" "false")];
    [HasAttr "tabindex"; NotSel (AttrIs "tabindex" "-1")] ].

Definition getFocusableElements (container : Node) : list Element :=
  List.filter
    (fun element =>
       if isHTMLElement element then
         negb (String.eqb (display element) "none")
         && negb (String.eqb (visibility element) "hidden")
         && negb (hasAttribute "aria-hidden" element)
       else false)
    (querySelectorAll container focusableSelectors).

Definition updateFocusableElements (s : State) : State :=
  match modalRef s with
  | None => s                                  (* if (!modalRef.current) return *)
  | Some container =>
      let l := getFocusableElements container in
      set_lastFocusableElement (last l)
        (set_firstFocusableElement (head l)
           (set_focusableElements l s))
  end.

Definition handleKeyDown (p : ModalProps) (event : KeyboardEvent) (s : State)
    : State :=
  if negb (isOpen p) then s
  else if String.eqb (key event) "Escape" && closeOnEscapeOf p then
    emit OnClose (emit PreventDefault s)
  else if String.eqb (key event) "Tab" then
    let s1 := updateFocusableElements s in
    if Nat.eqb (length (focusableElements s1)) 0 then emit PreventDefault s1
    else if shiftKey event then
      if sameElement (activeElement s1) (firstFocusableElement s1)
      then focusIfAny (lastFocusableElement s1) (emit PreventDefault s1)
      else s1
    else
      if sameElement (activeElement s1) (lastFocusableElement s1)
      then focusIfAny (firstFocusableElement s1) (emit PreventDefault s1)
      else s1
  else s.

(** [target] is [event.target], the element the click landed on. *)
Definition handleBackdropClick (p : ModalProps) (target : Element) (s : State)
    : State :=
  if closeOnBackdropClickOf p && sameElement (Some target) (backdropRef s)
  then emit OnClose s
  else s.

(** React commits the open modal: the portal puts the backdrop, with the
    dialog inside it, at the end of [document.body]; [ref={backdropRef}] on
    the backdrop and [ref={ref || modalRef}] on the dialog.  [forwardedRef]
    tells whether the caller passed a [ref] to the component; when it did,
    the dialog is given to that ref and [modalRef] is left as it was. *)
Definition commitOpen (forwardedRef : bool) (backdrop : Element)
    (dialog : Node) (s : State) : State :=
  set_page (mkPage (appendChild (mkNode backdrop [dialog]) (document (page s)))
                   (canTakeFocus (page s)))
    (set_backdropRef (Some backdrop)
       (if forwardedRef then s else set_modalRef (Some dialog) s)).

(** The body of the focus-management effect, run after the commit. *)
Definition effect (p : ModalProps) (s : State) : State :=
  if isOpen p then
    set_focusTimeout true
      (set_keydownListeners (S (keydownListeners s))
         (set_scroll (ScrollLock.lockBodyScroll (scroll s))
            (set_previousActiveElement (activeElement s) s)))
  else s.

(** The timer callback; a cleared timer never fires. *)
Definition focusTimerFires (p : ModalProps) (s : State) : State :=
  if negb (focusTimeout s) then s
  else
    let s1 := updateFocusableElements
                (set_isVisible true (set_focusTimeout false s)) in
    match current (initialFocusRef p) with
    | Some target => focus target s1
    | None =>
        match firstFocusableElement s1 with
        | Some first => focus first s1
        | None => focusIfAny (elementOf <$> modalRef s1) s1
        end
    end.

(** The function the effect returned, run when the modal stops being open
    or unmounts. *)
Definition cleanup (p : ModalProps) (s : State) : State :=
  let s1 :=
    set_isVisible false
      (set_scroll (ScrollLock.unlockBodyScroll (scroll s))
         (set_keydownListeners (pred (keydownListeners s))
            (set_focusTimeout false s))) in
  match current (finalFocusRef p) with
  | Some target => focus target s1
  | None =>
      match previousActiveElement s1 with
      | Some previous =>
          if isHTMLElement previous then focus previous s1 else s1
      | None => s1
      end
  end.

(** What can happen to an open modal between its effect and its cleanup. *)
Inductive Event :=
| KeyDown (event : KeyboardEvent)
| BackdropClick (target : Element)
| TimerFires
| DomChanged (dialog : Node)               (* the modal's content re-rendered *)
| PageChanged (pg : Page)                  (* the page changed otherwise *)
| FocusMoved (to : option Element).        (* the user or the host moved focus *)

Definition step (p : ModalProps) (s : State) (e : Event) : State :=
  match e with
  | KeyDown event => handleKeyDown p event s
  | BackdropClick target => handleBackdropClick p target s
  | TimerFires => focusTimerFires p s
  | DomChanged dialog =>
      let s1 :=
        set_page (mkPage (replaceNode (eid (elementOf dialog)) dialog
                                      (document (page s)))
                         (canTakeFocus (page s))) s in
      match modalRef s with
      | Some _ => set_modalRef (Some dialog) s1
      | None => s1
      end
  | PageChanged pg => set_page pg s
  | FocusMoved to => set_activeElement to s
  end.

Definition run (p : ModalProps) (s : State) (evs : list Event) : State :=
  foldl (step p) s evs.

(** The calls made by a handler: what it appended to the log. *)
Definition callsOf (before after : State) : list Effect :=
  drop (length (log before)) (log after).

(** The element focus goes back to on close, following the
    specification's words: the explicitly supplied final-focus target if
    given, else the element captured at open time if it is still attached
    to the document. *)
Definition restoredFocus_spec (final captured : option Element)
    (document : Node) : option Element :=
  match final with
  | Some target => Some target
  | None =>
      match captured with
      | Some previous => if attached previous document then Some previous else None
      | None => None
      end
  end.

(** The same choice as [cleanup] makes it. *)
Definition restoredFocus (final captured : option Element) : option Element :=
  match final with
  | Some target => Some target
  | None =>
      match captured with
      | Some previous => if isHTMLElement previous then Some previous else None
      | None => None
      end
  end.

(** The element focus is moved to on open, by the priority of the timer
    callback, for a dialog whose content is [container]. *)
Definition initialFocus (initial : option Element) (container : Node)
    : Element :=
  match initial with
  | Some target => target
  | None =>
      match head (getFocusableElements container) with
      | Some first => first
      | None => elementOf container
      end
  end.

Definition focusCalls (target : option Element) : list Effect :=
  match target with
  | Some e => [Focus e]
  | None => []
  end.

(** *** A small page for the examples *)

Definition html (id : nat) (tag : string) (a : gmap string string) : Element :=
  mkElement id tag a "block" "visible" true.

(** The button that opens the modal, an SVG link, the backdrop, the dialog
    container and two buttons and a paragraph that can sit inside it. *)
Definition trigger : Element := html 1 "button" ∅.
Definition svgLink : Element :=
  mkElement 3 "a" {[ "href" := "#top" ]} "inline" "visible" false.
Definition backdrop : Element := html 2 "div" {[ "aria-hidden" := "true" ]}.
Definition container : Element :=
  html 10 "div" {[ "role" := "dialog"; "aria-modal" := "true";
                   "tabindex" := "-1" ]}.
Definition okButton : Element := html 11 "button" ∅.
Definition cancelButton : Element := html 12 "button" ∅.
Definition paragraph : Element := html 13 "p" ∅.

Definition dialogWithButtons : Node :=
  mkNode container [mkNode okButton []; mkNode cancelButton []].
Definition dialogWithText : Node :=
  mkNode container [mkNode paragraph []].

(** The document while the modal with [dialog] is open (the portal renders
    the backdrop into the body). *)
Definition documentWith (dialog : Node) : Node :=
  mkNode (html 0 "body" ∅)
    [mkNode trigger []; mkNode svgLink []; mkNode backdrop [dialog]].

Definition tab : KeyboardEvent := mkKeyboardEvent "Tab" false.
Definition shiftTab : KeyboardEvent := mkKeyboardEvent "Tab" true.
Definition escape : KeyboardEvent := mkKeyboardEvent "Escape" false.

(** The modal opened from a page where [active] has focus: commit, effect,
    then the focus timer. *)
Definition mounted (forwardedRef : bool) (p : ModalProps) (dialog : Node)
    (active : option Element) : State :=
  effect p (commitOpen forwardedRef backdrop dialog
              (initialState active (ScrollLock.initial ""))).

Definition opened (forwardedRef : bool) (p : ModalProps) (dialog : Node)
    (active : option Element) : State :=
  focusTimerFires p (mounted forwardedRef p dialog active).

(** Props that differ from [p] in one dismissal flag only. *)
Definition withCloseOnEscape (b : option bool) (p : ModalProps) : ModalProps :=
  mkModalProps (isOpen p) (title p) (size p) (closeOnBackdropClick p) b
               (initialFocusRef p) (finalFocusRef p) (mobileSlide p)
               (className p).

Definition withCloseOnBackdropClick (b : option bool) (p : ModalProps)
    : ModalProps :=
  mkModalProps (isOpen p) (title p) (size p) b (closeOnEscape p)
               (initialFocusRef p) (finalFocusRef p) (mobileSlide p)
               (className p).

End Modal.

(** ** Alert.tsx *)

Module Alert.
Import React.

Inductive AlertVariant := success | warning | error | info.

Record AlertProps := mkAlertProps {
  children : ReactNode;
  className : option string;
  variant : AlertVariant;
  dismissible : option bool;
  onDismiss : option nat;                   (* the callback, by identity *)
  title : option string;
  icon : option bool;
  rest : gmap string PropValue              (* attributes passed through *)
}.

Definition dismissibleOf (p : AlertProps) : bool := default false (dismissible p).
Definition iconOf (p : AlertProps) : bool := default true (icon p).

Inductive Effect :=
| PreventDefault
| OnDismiss (handler : nat).

(** What the handlers created by one render close over: the props of
    that render and the [isExiting] it read. *)
Record Closure := mkClosure {
  closedProps : AlertProps;
  closedIsExiting : bool
}.

(** The two [useState] cells, the alert element that is in the DOM (by the
    closure its dismiss button carries; [None] when there is no element),
    the [setTimeout] callbacks that have been scheduled and have not run
    yet (each with the [onDismiss] its closure captured), and the log of
    calls. *)
Record State := mkState {
  isVisible : bool;
  isExiting : bool;
  element : option Closure;
  pendingTimeouts : list (option nat);
  log : list Effect
}.

Definition set_element (v : option Closure) (s : State) : State :=
  mkState (isVisible s) (isExiting s) v (pendingTimeouts s) (log s).

(** The cells at mount, before the first render. *)
Definition initial : State := mkState true false None [] [].

(** [handleDismiss] as one render created it: [dismissible], [isExiting]
    and [onDismiss] are the values that render had. *)
Definition handleDismiss (c : Closure) (s : State) : State :=
  if negb (dismissibleOf (closedProps c)) || closedIsExiting c then s
  else mkState (isVisible s) true (element s)
               (pendingTimeouts s ++ [onDismiss (closedProps c)]) (log s).

(** The callback given to [setTimeout(..., 300)]. *)
Definition timeoutFires (s : State) : State :=
  match pendingTimeouts s with
  | [] => s
  | captured :: others =>
      mkState false (isExiting s) (element s) others
              (log s ++ match captured with
                        | Some h => [OnDismiss h]     (* onDismiss?.() *)
                        | None => []
                        end)
  end.

Definition handleKeyDown (c : Closure) (key : string) (s : State) : State :=
  if (String.eqb key "Enter" || String.eqb key " ")
     && dismissibleOf (closedProps c)
  then handleDismiss c
         (mkState (isVisible s) (isExiting s) (element s) (pendingTimeouts s)
                  (log s ++ [PreventDefault]))
  else s.

(** A render with props [p] and what it leaves in the DOM.  With
    [isVisible] off the component returns [null].  With [isExiting] off
    the alert element is in the tree and its handlers are the ones this
    render created.  With [isExiting] on the tree has no element, and
    [AnimatePresence] keeps the element it was given last, handlers
    included, until its exit animation has ended. *)
Definition render (p : AlertProps) (s : State) : State :=
  if negb (isVisible s) then set_element None s
  else if isExiting s then s
  else set_element (Some (mkClosure p (isExiting s))) s.

(** [AnimatePresence] takes the exiting element out of the DOM. *)
Definition exitAnimationEnds (s : State) : State :=
  if isExiting s then set_element None s else s.

(** A click or a key press reaches the handlers of the element that is in
    the DOM, if there is one. *)
Definition onElement (handler : Closure → State → State) (s : State) : State :=
  match element s with
  | Some c => handler c s
  | None => s
  end.

Inductive Event :=
| RequestDismiss                 (* a click on the dismiss button *)
| KeyDown (key : string)         (* a key pressed on the dismiss button *)
| TimeoutFires
| ExitAnimationEnds.

(** One event, with the props of the latest render before it. *)
Definition step (s : State) (pe : AlertProps * Event) : State :=
  let s1 := render (fst pe) s in
  match snd pe with
  | RequestDismiss => onElement handleDismiss s1
  | KeyDown key => onElement (fun c => handleKeyDown c key) s1
  | TimeoutFires => timeoutFires s1
  | ExitAnimationEnds => exitAnimationEnds s1
  end.

Definition run (s : State) (evs : list (AlertProps * Event)) : State :=
  foldl step s evs.

Inductive Phase := visible | exiting | removed.

Definition phase (s : State) : Phase :=
  if isVisible s then (if isExiting s then exiting else visible) else removed.

Definition rank (ph : Phase) : nat :=
  match ph with visible => 0 | exiting => 1 | removed => 2 end.

Definition dismissCalls (s : State) : nat :=
  length (List.filter (fun e => match e with OnDismiss _ => true | _ => false end)
                      (log s)).

(** The render function.  [styles] is the CSS module and [reduced] what
    [window.matchMedia('(prefers-reduced-motion: reduce)').matches] reads
    during this render.  The dismiss button's [onClick] and [onKeyDown] are
    [handleDismiss] and [handleKeyDown] above. *)
Definition variantName (v : AlertVariant) : string :=
  match v with
  | success => "success" | warning => "warning"
  | error => "error" | info => "info"
  end.

Definition enterExit : list (string * PropValue) :=
  [ ("initial", VTarget (Animations.mkTarget
       [("opacity", Animations.Num 0); ("y", Animations.Num (-20));
        ("scale", Animations.Num 0.95)] None));
    ("animate", VTarget (Animations.mkTarget
       [("opacity", Animations.Num 1); ("y", Animations.Num 0);
        ("scale", Animations.Num 1)] None));
    ("exit", VTarget (Animations.mkTarget
       [("opacity", Animations.Num 0); ("scale", Animations.Num 0.9);
        ("y", Animations.Num (-10))] None)) ].

Definition alertTransition (reduced : bool) : Animations.Transition :=
  if reduced
  then Animations.plain 0.1 (Animations.EaseName "linear")
  else Animations.plain 0.3 (Animations.EaseName "easeOut").

Definition Alert (styles : string → option string) (reduced : bool)
    (p : AlertProps) (s : State) : ReactNode :=
  if negb (isVisible s) then RNull
  else
    let alertClasses :=
      classNames [ Some "zyfi-components"; styles "alert";
                   styles ("variant-" +:+ variantName (variant p));
                   if dismissibleOf p then styles "dismissible" else None;
                   className p ] in
    let isError := match variant p with error => true | _ => false end in
    RElement "AnimatePresence" {[ "mode" := VStr "wait" ]}
      [ whenB (negb (isExiting s))
          (RElement "motion.div"
             (spread
                (object
                   ([ ("className", Some (VStr alertClasses));
                      ("role", Some (VStr (if isError then "alert" else "status")));
                      ("aria-live",
                       Some (VStr (if isError then "assertive" else "polite")));
                      ("aria-atomic", Some (VStr "true"));
                      ("transition",
                       Some (VTransition (alertTransition reduced))) ]
                    ++ map (fun '(k, v) => (k, Some v)) enterExit))
                (rest p))
             [ RElement "div" (object [("className", VStr <$> styles "content")])
                 [ whenB (iconOf p)
                     (RElement "div"
                        (object [("className", VStr <$> styles "iconWrapper");
                                 ("aria-hidden", Some (VStr "true"))])
                        [RElement ("icon-" +:+ variantName (variant p))
                           (object [("className", VStr <$> styles "icon")]) []]);
                   RElement "div"
                     (object [("className", VStr <$> styles "messageWrapper")])
                     [ match title p with
                       | Some t =>
                           if String.eqb t "" then RText t
                           else RElement "div"
                                  (object [("className", VStr <$> styles "title")])
                                  [RText t]
                       | None => RUndefined
                       end;
                       RElement "div"
                         (object [("className", VStr <$> styles "message")])
                         [children p] ] ];
               whenB (dismissibleOf p)
                 (RElement "button"
                    (object [("type", Some (VStr "button"));
                             ("className", VStr <$> styles "dismissButton");
                             ("aria-label", Some (VStr "Dismiss alert"));
                             ("tabIndex", Some (VNum 0))])
                    [RElement "X"
                       (object [("className", VStr <$> styles "dismissIcon");
                                ("aria-hidden", Some (VStr "true"))]) []]) ]) ].

(** What holds of an Alert's state after any events: a timeout is pending
    only once the exit has begun, one is pending as long as the exiting
    alert is visible, and the element in the DOM was rendered before the
    exit began, by a dismissible alert if the exit has begun. *)
Definition alert_inv (s : State) : Prop :=
  (pendingTimeouts s ≠ [] → isExiting s = true)
  ∧ (isVisible s = true → isExiting s = true → pendingTimeouts s ≠ [])
  ∧ (∀ c, element s = Some c →
       closedIsExiting c = false
       ∧ (isExiting s = true → dismissibleOf (closedProps c) = true)).

End Alert.

(** ** types/index.ts *)

Module Types.
Import React.

Inductive ComponentVariant := primary | secondary | outline.
Inductive ComponentSize := sm | md | lg.

Definition variantName (v : ComponentVariant) : string :=
  match v with
  | primary => "primary" | secondary => "secondary" | outline => "outline"
  end.

Definition sizeName (z : ComponentSize) : string :=
  match z with sm => "sm" | md => "md" | lg => "lg" end.

(** [ComponentBaseProps], with whatever else the caller put on the
    element. *)
Record ComponentBaseProps := mkBaseProps {
  className : option string;
  children : ReactNode;
  rest : gmap string PropValue
}.

(** A property name a type-checked caller may add to a component whose
    props type does not declare it: JSX accepts undeclared names only when
    they are hyphenated ([data-*], [aria-*]). *)
Definition hyphenated (name : string) : bool :=
  existsb (Ascii.eqb (Ascii.ascii_of_nat 45)) (String.list_ascii_of_string name).

Definition onlyHyphenated (m : gmap string PropValue) : Prop :=
  ∀ name, is_Some (m !! name) → hyphenated name = true.

End Types.

(** ** Button.tsx *)

Module Button.
Import React Types.

Record ButtonProps := mkButtonProps {
  children : ReactNode;
  className : option string;
  variant : option ComponentVariant;
  size : option ComponentSize;
  loading : option bool;
  disabled : option bool;
  fullWidth : option bool;
  leftIcon : ReactNode;
  rightIcon : ReactNode;
  type : option string;
  disableAnimations : option bool;
  rest : gmap string PropValue    (* the other button attributes and handlers *)
}.

(** The names the parameter list destructures; [...props] is the rest. *)
Definition named : list string :=
  [ "children"; "className"; "variant"; "size"; "loading"; "disabled";
    "fullWidth"; "leftIcon"; "rightIcon"; "type"; "disableAnimations" ].

Definition isDisabled (p : ButtonProps) : bool :=
  default false (disabled p) || default false (loading p).

Section Render.
Variable styles : string → option string.          (* Button.module.css *)
Variable w : option Animations.Window.     (* window when animations.ts was evaluated *)

Definition buttonClasses (p : ButtonProps) : string :=
  classNames
    [ Some "zyfi-components";
      styles "button";
      styles ("variant-" +:+ variantName (default primary (variant p)));
      styles ("size-" +:+ sizeName (default md (size p)));
      if default false (loading p) then styles "loading" else None;
      if isDisabled p then styles "disabled" else None;
      if default false (fullWidth p) then styles "fullWidth" else None;
      className p ].

Definition motionProps (p : ButtonProps) : gmap string PropValue :=
  let animated := negb (default false (disableAnimations p)) in
  object
    [ ("variants",
       if animated then Some (VVariants (Animations.buttonHover w)) else None);
      ("whileHover",
       if negb (isDisabled p) && animated then Some (VStr "hover") else None);
      ("whileTap",
       if negb (isDisabled p) && animated then Some (VStr "tap") else None) ].

Definition spinner : ReactNode :=
  RElement "motion.span"
    (object [ ("className", VStr <$> styles "spinner");
              ("aria-hidden", Some (VStr "true"));
              ("variants", Some (VVariants (Animations.spinnerRotate w)));
              ("animate", Some (VStr "animate")) ])
    [RElement "Loader2" (object [("className", VStr <$> styles "spinnerIcon")]) []].

Definition iconSpan (cls : string) (icon : ReactNode) : ReactNode :=
  RElement "span"
    (object [ ("className", VStr <$> styles cls);
              ("aria-hidden", Some (VStr "true")) ])
    [icon].

Definition content (p : ButtonProps) : ReactNode :=
  RElement "span" (object [("className", VStr <$> styles "content")])
           [children p].

Definition Button (p : ButtonProps) : ReactNode :=
  let loading := default false (loading p) in
  RElement "motion.button"
    (spread
       (spread
          (object
             [ ("type", Some (VStr (default "button" (type p))));
               ("className", Some (VStr (buttonClasses p)));
               ("disabled", Some (VBool (isDisabled p)));
               ("aria-busy", Some (VBool loading));
               ("aria-disabled", Some (VBool (isDisabled p))) ])
          (motionProps p))
       (restOf named (rest p)))
    [ whenB loading spinner;
      whenN (whenB (negb loading) (leftIcon p)) (iconSpan "leftIcon" (leftIcon p));
      content p;
      whenN (whenB (negb loading) (rightIcon p))
            (iconSpan "rightIcon" (rightIcon p)) ].

End Render.

(** A plain button in its loading state, and the same with the caller's
    own [aria-busy]. *)
Definition loadingButton : ButtonProps :=
  mkButtonProps (RText "Save") None None None (Some true) None None
                RUndefined RUndefined None None ∅.

Definition loadingButtonNotBusy : ButtonProps :=
  mkButtonProps (RText "Save") None None None (Some true) None None
                RUndefined RUndefined None None
                {[ "aria-busy" := VBool false ]}.

End Button.

(** ** Card.tsx *)

Module Card.
Import React Types.

Inductive Elevation := low | medium | high.
Inductive Padding := padSm | padMd | padLg.

Definition elevationName (e : Elevation) : string :=
  match e with low => "low" | medium => "medium" | high => "high" end.
Definition paddingName (p : Padding) : string :=
  match p with padSm => "sm" | padMd => "md" | padLg => "lg" end.

Record CardProps := mkCardProps {
  children : ReactNode;
  className : option string;
  elevation : option Elevation;
  padding : option Padding;
  hover : option bool;
  onClick : option nat;                     (* the handler, by identity *)
  animate : option bool;
  animationDelay : option Q;
  isStaggerChild : option bool;
  rest : gmap string PropValue
}.

Definition named : list string :=
  [ "children"; "className"; "elevation"; "padding"; "hover"; "onClick";
    "animate"; "animationDelay"; "isStaggerChild" ].

(** [Boolean(onClick)]: a function is truthy, [undefined] is not. *)
Definition isInteractive (p : CardProps) : bool :=
  match onClick p with Some _ => true | None => false end.

Section Render.
Variable styles : string → option string.          (* Card.module.css *)
Variable w : option Animations.Window.     (* window when animations.ts was evaluated *)

Definition regionClasses (region : string) (p : ComponentBaseProps) : string :=
  classNames [ styles region; Types.className p ].

Definition region (name : string) (p : ComponentBaseProps) : ReactNode :=
  RElement "motion.div"
    (spread (object [("className", Some (VStr (regionClasses name p)))])
            (restOf ["children"; "className"] (Types.rest p)))
    [Types.children p].

Definition CardHeader (p : ComponentBaseProps) : ReactNode := region "header" p.
Definition CardBody (p : ComponentBaseProps) : ReactNode := region "body" p.
Definition CardFooter (p : ComponentBaseProps) : ReactNode := region "footer" p.

Definition cardClasses (p : CardProps) : string :=
  classNames
    [ Some "zyfi-components";
      styles "card";
      styles ("elevation-" +:+ elevationName (default medium (elevation p)));
      styles ("padding-" +:+ paddingName (default padMd (padding p)));
      if default false (hover p) then styles "hover" else None;
      if isInteractive p then styles "interactive" else None;
      className p ].

Definition motionProps (p : CardProps) : gmap string PropValue :=
  let animated := default true (animate p) in          (* animate !== false *)
  let staggered := default false (isStaggerChild p) in
  object
    [ ("variants",
       if staggered then None
       else if animated then Some (VVariants (Animations.fadeInUp w)) else None);
      ("initial",
       if animated && negb staggered then Some (VStr "initial") else None);
      ("animate",
       if animated && negb staggered then Some (VStr "animate") else None);
      ("whileHover",
       if default false (hover p) || isInteractive p
       then VTarget <$> Animations.v_hover (Animations.hoverLift w) else None);
      ("transition",
       match animationDelay p with
       | Some d =>
           if Qeq_bool d 0 then None             (* 0 is falsy *)
           else Some (VTransition
                        (Animations.mkTransition None None None None None (Some d)))
       | None => None
       end) ].

Definition Card (p : CardProps) : ReactNode :=
  match onClick p with
  | Some handler =>
      RElement "motion.button"
        (spread
           (spread
              (object [ ("className", Some (VStr (cardClasses p)));
                        ("onClick", Some (VFn handler));
                        ("type", Some (VStr "button")) ])
              (motionProps p))
           (restOf named (rest p)))
        [children p]
  | None =>
      RElement "motion.div"
        (spread
           (spread (object [("className", Some (VStr (cardClasses p)))])
                   (motionProps p))
           (restOf named (rest p)))
        [children p]
  end.

End Render.

(** A card with a click handler and a test id. *)
Definition clickableCard : CardProps :=
  mkCardProps (RText "Open") None None None None (Some 7%nat) None None None
              {[ "data-testid" := VStr "card" ]}.

End Card.

(** ** Modal.tsx: the compound sub-regions *)

Module ModalRegions.
Import React Types.

Record ModalContextValue := mkContext {
  onClose : nat;                            (* the callback, by identity *)
  titleId : string
}.

(** The components above a component in the tree, nearest first.  A Modal
    wraps its children in [ModalContext.Provider]; nothing else provides
    that context. *)
Inductive Ancestor :=
| ModalAbove (value : ModalContextValue)
| CardAbove
| OtherAbove (name : string).

(** [useContext(ModalContext)], whose default is [null]. *)
Definition useModalContext (ancestors : list Ancestor)
    : option ModalContextValue :=
  head (omap (fun a => match a with ModalAbove v => Some v | _ => None end)
             ancestors).

Record ModalHeaderProps := mkHeaderProps {
  base : ComponentBaseProps;
  showCloseButton : option bool
}.

Section Render.
Variable styles : string → option string.          (* Modal.module.css *)

Definition ModalHeader (ancestors : list Ancestor) (p : ModalHeaderProps)
    : Rendering :=
  match useModalContext ancestors with
  | None => Throws "ModalHeader must be used within a Modal component"
  | Some context =>
      Returns
        (RElement "div"
           (spread
              (object [("className",
                        Some (VStr (classNames [styles "header";
                                                className (base p)])))])
              (restOf ["className"; "children"; "showCloseButton"]
                      (rest (base p))))
           [ RElement "div"
               (object [ ("id", Some (VStr (titleId context)));
                         ("className", VStr <$> styles "title") ])
               [children (base p)];
             whenB (default true (showCloseButton p))
               (RElement "motion.button"
                  (object
                     [ ("type", Some (VStr "button"));
                       ("className", VStr <$> styles "closeButton");
                       ("onClick", Some (VFn (onClose context)));
                       ("aria-label", Some (VStr "Close modal"));
                       ("whileHover",
                        Some (VTarget (Animations.mkTarget
                                         [("scale", Animations.Num 1.05)] None)));
                       ("whileTap",
                        Some (VTarget (Animations.mkTarget
                                         [("scale", Animations.Num 0.95)] None))) ])
                  [RElement "X"
                     (object [ ("className", VStr <$> styles "closeIcon");
                               ("aria-hidden", Some (VStr "true")) ]) []]) ])
  end.

Definition plainRegion (cls : string) (p : ComponentBaseProps) : ReactNode :=
  RElement "div"
    (spread
       (object [("className", Some (VStr (classNames [styles cls; className p])))])
       (restOf ["className"; "children"] (rest p)))
    [children p].

Definition ModalBody (ancestors : list Ancestor) (p : ComponentBaseProps)
    : Rendering :=
  match useModalContext ancestors with
  | None => Throws "ModalBody must be used within a Modal component"
  | Some _ => Returns (plainRegion "body" p)
  end.

Definition ModalFooter (ancestors : list Ancestor) (p : ComponentBaseProps)
    : Rendering :=
  match useModalContext ancestors with
  | None => Throws "ModalFooter must be used within a Modal component"
  | Some _ => Returns (plainRegion "footer" p)
  end.

End Render.

End ModalRegions.

(** ** The sub-region components of the library, side by side *)

Module Regions.
Import React Types ModalRegions.

Inductive Region :=
| ModalHeaderR | ModalBodyR | ModalFooterR
| CardHeaderR | CardBodyR | CardFooterR.

Inductive Parent := ModalParent | CardParent.

Definition parentOf (r : Region) : Parent :=
  match r with
  | ModalHeaderR | ModalBodyR | ModalFooterR => ModalParent
  | CardHeaderR | CardBodyR | CardFooterR => CardParent
  end.

Definition isParent (par : Parent) (a : Ancestor) : bool :=
  match par, a with
  | ModalParent, ModalAbove _ => true
  | CardParent, CardAbove => true
  | _, _ => false
  end.

(** The region is rendered with no component of its parent's kind above it. *)
Definition outsideParent (r : Region) (ancestors : list Ancestor) : bool :=
  negb (existsb (isParent (parentOf r)) ancestors).

(** Rendering a region somewhere in a tree.  The Card regions are plain
    functions of their props and cannot throw. *)
Definition render (modalStyles cardStyles : string → option string)
    (r : Region) (ancestors : list Ancestor) (p : ModalHeaderProps)
    : Rendering :=
  match r with
  | ModalHeaderR => ModalHeader modalStyles ancestors p
  | ModalBodyR => ModalBody modalStyles ancestors (base p)
  | ModalFooterR => ModalFooter modalStyles ancestors (base p)
  | CardHeaderR => Returns (Card.CardHeader cardStyles (base p))
  | CardBodyR => Returns (Card.CardBody cardStyles (base p))
  | CardFooterR => Returns (Card.CardFooter cardStyles (base p))
  end.

Definition throws (r : Rendering) : bool :=
  match r with Throws _ => true | Returns _ => false end.

(** A CSS module without classes, and a header with just a text. *)
Definition noStyles : string → option string := fun _ => None.
Definition textRegion : ModalHeaderProps :=
  mkHeaderProps (mkBaseProps None (RText "Details") ∅) None.

Definition regionName (r : Region) : string :=
  match r with
  | ModalHeaderR => "ModalHeader" | ModalBodyR => "ModalBody"
  | ModalFooterR => "ModalFooter"
  | CardHeaderR => "CardHeader" | CardBodyR => "CardBody"
  | CardFooterR => "CardFooter"
  end.

End Regions.

(** ** Modal.tsx: what the Modal returns *)

Module ModalView.
Import React Types.

Definition sizeName (z : Modal.ModalSize) : string :=
  match z with Modal.sm => "sm" | Modal.md => "md" | Modal.lg => "lg" end.

(** The props of [Modal.ModalProps] together with the ones the handlers
    do not read: the [onClose] callback by identity, the children and the
    attributes passed through. *)
Record ViewProps := mkViewProps {
  props : Modal.ModalProps;
  onClose : nat;
  children : ReactNode;
  rest : gmap string PropValue
}.

Definition named : list string :=
  [ "isOpen"; "onClose"; "title"; "size"; "closeOnBackdropClick";
    "closeOnEscape"; "initialFocusRef"; "finalFocusRef"; "mobileSlide";
    "className"; "children" ].

Section Render.
Variable styles : string → option string.          (* Modal.module.css *)
Variable load : option Animations.Window.  (* window when animations.ts was evaluated *)
Variable win : option Animations.Window.   (* window during this render *)
Variable titleId : string.                         (* titleId.current *)
Variable handleBackdropClick : nat.                (* the click handler, by identity *)

Definition modalClasses (v : ViewProps) (isVisible : bool) : string :=
  classNames
    [ Some "zyfi-components";
      styles "modal";
      styles ("size-" +:+ sizeName (Modal.sizeOf (props v)));
      if isVisible then styles "visible" else None;
      Modal.className (props v) ].

(** [typeof window !== 'undefined' && window.innerWidth <= 640] *)
Definition isMobile : bool :=
  match win with
  | None => false
  | Some w => Animations.innerWidth w <=? 640
  end.

Definition modalVariant (v : ViewProps) : Animations.Variants :=
  if Modal.mobileSlideOf (props v) && isMobile
  then Animations.modalMobileSlide load
  else Animations.modalEnter load.

(** [title ? titleId.current : undefined] *)
Definition labelledBy (v : ViewProps) : option PropValue :=
  match Modal.title (props v) with
  | Some t => if String.eqb t "" then None else Some (VStr titleId)
  | None => None
  end.

Definition dialog (v : ViewProps) (isVisible : bool) : ReactNode :=
  RElement "motion.div"
    (spread
       (object
          [ ("className", Some (VStr (modalClasses v isVisible)));
            ("role", Some (VStr "dialog"));
            ("aria-modal", Some (VStr "true"));
            ("aria-labelledby", labelledBy v);
            ("tabIndex", Some (VNum (-1)));
            ("variants", Some (VVariants (modalVariant v)));
            ("initial", Some (VStr "initial"));
            ("animate", Some (VStr "animate"));
            ("exit", Some (VStr "exit")) ])
       (restOf named (rest v)))
    [ RElement "ModalContext.Provider"
        (object [ ("value.onClose", Some (VFn (onClose v)));
                  ("value.titleId", Some (VStr titleId)) ])
        [children v] ].

Definition backdrop (v : ViewProps) (isVisible : bool) : ReactNode :=
  RElement "motion.div"
    (object
       [ ("className", VStr <$> styles "backdrop");
         ("onClick", Some (VFn handleBackdropClick));
         ("aria-hidden", Some (VStr "true"));
         ("variants", Some (VVariants (Animations.modalBackdrop load)));
         ("initial", Some (VStr "initial"));
         ("animate", Some (VStr "animate"));
         ("exit", Some (VStr "exit")) ])
    [dialog v isVisible].

(** The tree handed to [createPortal(..., document.body)]. *)
Definition Modal (v : ViewProps) (isVisible : bool) : ReactNode :=
  RElement "AnimatePresence" {[ "mode" := VStr "wait" ]}
    [whenB (Modal.isOpen (props v)) (backdrop v isVisible)].

End Render.

(** An open modal with a title and nothing else. *)
Definition titled : ViewProps :=
  mkViewProps
    (Modal.mkModalProps true (Some "Settings") None None None None None None None)
    0%nat (RText "body") ∅.

End ModalView.

(** ** Card.tsx: the stagger container *)

Module CardGroup.
Import React Types.

(** A child handed to the container, before it is rendered: a [<Card>]
    element with its props, or anything else. *)
Inductive Child :=
| CardChild (p : Card.CardProps)
| OtherChild (n : ReactNode).

(** The [children] prop: one node, or an array of them, arrays nesting. *)
#[warnings="-register-all"] Inductive Children :=
| One (c : Child)
| Many (cs : list Children).

(** The nodes [React.Children] walks over: arrays are flattened, in order. *)
Fixpoint leaves (cs : Children) : list Child :=
  match cs with
  | One c => [c]
  | Many l => List.flat_map leaves l
  end.

(** [undefined], [null] and booleans are empty nodes. *)
Definition emptyNode (c : Child) : bool :=
  match c with
  | OtherChild (RUndefined | RNull | RBool _) => true
  | _ => false
  end.

Definition nullish (c : Child) : bool :=
  match c with
  | OtherChild (RUndefined | RNull) => true
  | _ => false
  end.

(** [React.Children.map(children, fn)]: [fn] is called on every node, with
    [null] in place of an empty one, and what it returns is collected,
    [null] and [undefined] left out. *)
Definition childrenMap (fn : Child → Child) (cs : Children) : list Child :=
  List.filter (fun r => negb (nullish r))
    (map (fun c => fn (if emptyNode c then OtherChild RNull else c))
         (leaves cs)).

(** [React.cloneElement(child, { isStaggerChild: true })] *)
Definition asStaggerChild (p : Card.CardProps) : Card.CardProps :=
  Card.mkCardProps (Card.children p) (Card.className p) (Card.elevation p)
                   (Card.padding p) (Card.hover p) (Card.onClick p)
                   (Card.animate p) (Card.animationDelay p) (Some true)
                   (Card.rest p).

(** The callback of [React.Children.map]. *)
Definition mapChild (c : Child) : Child :=
  match c with
  | CardChild p => CardChild (asStaggerChild p)
  | OtherChild n => OtherChild n
  end.

Record CardContainerProps := mkContainerProps {
  children : Children;
  className : option string;
  rest : gmap string PropValue
}.

Section Render.
Variable styles : string → option string.          (* Card.module.css *)
Variable w : option Animations.Window.     (* window when animations.ts was evaluated *)

Definition renderChild (c : Child) : ReactNode :=
  match c with
  | CardChild p => Card.Card styles w p
  | OtherChild n => n
  end.

Definition CardContainer (p : CardContainerProps) : ReactNode :=
  RElement "motion.div"
    (spread
       (object
          [ ("className", Some (VStr (classNames [className p])));
            ("variants", Some (VVariants Animations.staggerContainer));
            ("initial", Some (VStr "initial"));
            ("animate", Some (VStr "animate")) ])
       (restOf ["children"; "className"] (rest p)))
    (map renderChild (childrenMap mapChild (children p))).

End Render.

End CardGroup.

(** ** More elements for the examples *)

Module MorePages.
Import Dom Modal.

(** A disabled button that carries [tabindex="0"], a disabled one that
    does not, and a dialog holding both and an enabled one. *)
Definition disabledTabbable : Element :=
  html 21 "button" {[ "disabled" := ""; "tabindex" := "0" ]}.
Definition disabledPlain : Element :=
  html 22 "button" {[ "disabled" := "" ]}.
Definition dialogWithDisabled : Node :=
  mkNode container
    [mkNode disabledPlain []; mkNode disabledTabbable []; mkNode okButton []].

(** An input outside the dialog, for an explicit initial-focus target. *)
Definition searchField : Element := html 30 "input" ∅.

Definition withInitialFocus (target : Element) : ModalProps :=
  mkModalProps true None None None None (Some (Some target)) None None None.

(** The open modal with two buttons, focus on the last one. *)
Definition onLastButton : State :=
  step (onlyOpen true)
       (opened false (onlyOpen true) dialogWithButtons (Some trigger))
       (FocusMoved (Some cancelButton)).

End MorePages.

(** ** More alerts for the examples *)

Module MoreAlerts.
Import React Alert.

(** What holds of a dismissed Alert whose dismissal was requested under
    props with the callback [captured]: every timeout still pending and
    every call already made carries that callback. *)
Definition captured_inv (captured : option nat) (s : State) : Prop :=
  isExiting s = true
  ∧ (∀ c, element s = Some c → onDismiss (closedProps c) = captured)
  ∧ (∀ c, c ∈ pendingTimeouts s → c = captured)
  ∧ (∀ h, OnDismiss h ∈ log s → captured = Some h).

Definition dismissibleAlert (v : AlertVariant) (callback : option nat)
    : AlertProps :=
  mkAlertProps (RText "Saved") None v (Some true) callback None None ∅.

Definition plainAlert (v : AlertVariant) : AlertProps :=
  mkAlertProps (RText "Saved") None v None None None None ∅.

(** An alert with [dismissible={false}] and a callback. *)
Definition fixedAlert (v : AlertVariant) (callback : option nat)
    : AlertProps :=
  mkAlertProps (RText "Saved") None v (Some false) callback None None ∅.

End MoreAlerts.

(** ** More props for the examples *)

Module MoreProps.
Import React Types.

(** A button that is not loading, whose left icon is the number 0 and
    which carries an [id] and a click handler. *)
Definition zeroIconButton : Button.ButtonProps :=
  Button.mkButtonProps (RText "Count") None None None None None None
                       (RNumber 0) RUndefined None None
                       {[ "id" := VStr "count"; "onClick" := VFn 3%nat ]}.

(** A card that asks for its entrance animation, a child of a container. *)
Definition animatedCard : Card.CardProps :=
  Card.mkCardProps (RText "One") None None None None None (Some true) None
                   (Some false) ∅.

Definition twoChildren : CardGroup.CardContainerProps :=
  CardGroup.mkContainerProps
    (CardGroup.Many
       [CardGroup.One (CardGroup.CardChild animatedCard);
        CardGroup.One (CardGroup.OtherChild (RText "note"))])
    None ∅.

(** The same two children among empty nodes and inside an array. *)
Definition sparseChildren : CardGroup.CardContainerProps :=
  CardGroup.mkContainerProps
    (CardGroup.Many
       [CardGroup.One (CardGroup.OtherChild (RBool false));
        CardGroup.Many [CardGroup.One (CardGroup.CardChild animatedCard);
                        CardGroup.One (CardGroup.OtherChild RNull)];
        CardGroup.One (CardGroup.OtherChild RUndefined);
        CardGroup.One (CardGroup.OtherChild (RText "note"))])
    None ∅.

(** A header two levels below a Modal that is itself inside another. *)
Definition innerModal : ModalRegions.ModalContextValue :=
  ModalRegions.mkContext 5%nat "modal-title-inner".
Definition outerModal : ModalRegions.ModalContextValue :=
  ModalRegions.mkContext 6%nat "modal-title-outer".
Definition nested : list ModalRegions.Ancestor :=
  [ ModalRegions.OtherAbove "section"; ModalRegions.CardAbove;
    ModalRegions.ModalAbove innerModal; ModalRegions.ModalAbove outerModal ].

End MoreProps.

(* ===================================================================== *)
(** * Part II. Properties                                                 *)
(* ===================================================================== *)

Section ScrollLockProperties.
Import ScrollLock.

Lemma filter_neq_notin (m : nat) (l : list nat) :
  m ∉ l → List.filter (fun x => negb (Nat.eqb x m)) l = l.
Proof.
  induction l as [|a l IH]; intros Hm; simpl; [done|].
  apply not_elem_of_cons in Hm as [Hne Hm].
  destruct (Nat.eqb_spec a m) as [->|_]; [done|].
  simpl. by rewrite IH.
Qed.

Lemma filter_neq_length (m : nat) (l : list nat) :
  NoDup l → m ∈ l →
  S (length (List.filter (fun x => negb (Nat.eqb x m)) l)) = length l.
Proof.
  induction l as [|a l IH]; intros Hnd Hm; [by apply elem_of_nil in Hm|].
  apply NoDup_cons in Hnd as [Ha Hnd]. simpl.
  destruct (Nat.eqb_spec a m) as [->|Hne]; simpl.
  - by rewrite filter_neq_notin.
  - apply elem_of_cons in Hm as [->|Hm]; [done|]. by rewrite IH.
Qed.

Lemma filter_neq_elem (m x : nat) (l : list nat) :
  x ∈ List.filter (fun y => negb (Nat.eqb y m)) l ↔ x ∈ l ∧ x ≠ m.
Proof.
  rewrite !list_elem_of_In, filter_In.
  destruct (Nat.eqb_spec x m); simpl; intuition congruence.
Qed.

Lemma filter_neq_NoDup (m : nat) (l : list nat) :
  NoDup l → NoDup (List.filter (fun y => negb (Nat.eqb y m)) l).
Proof.
  induction 1 as [|a l Ha Hnd IH]; simpl; [constructor|].
  destruct (Nat.eqb_spec a m); simpl; [done|].
  constructor; [|done]. rewrite filter_neq_elem. tauto.
Qed.

Lemma step_inv (s0 : string) (w : World) (e : Event) :
  lock_inv s0 w → lock_inv s0 (step w e).
Proof.
  intros (Hnd & Hc & Hs). destruct w as [[c o b] ms]; simpl in *.
  destruct e as [m|m]; simpl; case_bool_decide as Hm; simpl;
    try (by repeat split).
  - (* an instance opens *)
    split; [by constructor|].
    unfold lockBodyScroll; simpl. subst c.
    destruct ms as [|a ms]; simpl in *.
    + destruct Hs as [-> ->]. by repeat split.
    + destruct Hs as [-> ->]. repeat split; lia.
  - (* an instance closes *)
    split; [by apply filter_neq_NoDup|].
    pose proof (filter_neq_length m ms Hnd Hm) as Hlen.
    unfold unlockBodyScroll; simpl. subst c.
    destruct ms as [|a ms]; [by apply elem_of_nil in Hm|].
    destruct Hs as [-> ->].
    destruct (List.filter _ (a :: ms)) as [|a' ms'] eqn:Hf; simpl in *.
    + assert (length ms = 0%nat) as -> by lia. by repeat split.
    + destruct (Z.eqb_spec (Z.of_nat (S (length ms)) - 1) 0) as [Hz|Hz];
        [lia|]. simpl. repeat split; lia.
Qed.

Lemma run_inv (s0 : string) (evs : list Event) (w : World) :
  lock_inv s0 w → lock_inv s0 (run w evs).
Proof.
  revert w. induction evs as [|e evs IH]; intros w Hw; simpl; [done|].
  apply IH. by apply step_inv.
Qed.

Lemma initial_inv (s0 : string) : lock_inv s0 (initialWorld s0).
Proof. repeat split. constructor. Qed.

Lemma run_app (w : World) (evs1 evs2 : list Event) :
  run w (evs1 ++ evs2) = run (run w evs1) evs2.
Proof. apply foldl_app. Qed.

Lemma opens_elem (ids : list nat) (w : World) (m : nat) :
  m ∈ openModals (run w (map Open ids)) ↔ m ∈ ids ∨ m ∈ openModals w.
Proof.
  revert w. induction ids as [|a ids IH]; intros w; simpl.
  - rewrite elem_of_nil. tauto.
  - rewrite IH, elem_of_cons. case_bool_decide as Ha; simpl.
    + split; [tauto|]. intros [[->|?]|?]; tauto.
    + rewrite elem_of_cons. tauto.
Qed.

Lemma opens_length (ids : list nat) (w : World) :
  NoDup ids → (∀ m, m ∈ ids → m ∉ openModals w) →
  length (openModals (run w (map Open ids)))
  = (length ids + length (openModals w))%nat.
Proof.
  revert w. induction ids as [|a ids IH]; intros w Hnd Hfresh; simpl; [done|].
  apply NoDup_cons in Hnd as [Ha Hnd].
  rewrite bool_decide_eq_false_2 by (apply Hfresh; left).
  rewrite IH; simpl; [lia|done|].
  intros m Hm. rewrite not_elem_of_cons. split.
  - intros ->. done.
  - apply Hfresh. by right.
Qed.

Lemma closes_elem (closed : list nat) (w : World) (m : nat) :
  m ∈ openModals (run w (map Close closed)) ↔ m ∈ openModals w ∧ m ∉ closed.
Proof.
  revert w. induction closed as [|a closed IH]; intros w; simpl.
  - rewrite elem_of_nil. tauto.
  - rewrite IH, not_elem_of_cons. case_bool_decide as Ha; simpl.
    + rewrite filter_neq_elem. tauto.
    + split; [|tauto]. intros [Hm Hc]. repeat split; [done| |done].
      intros ->. done.
Qed.

Lemma closes_length (closed : list nat) (w : World) :
  NoDup closed → NoDup (openModals w) →
  (∀ m, m ∈ closed → m ∈ openModals w) →
  (length (openModals (run w (map Close closed))) + length closed)%nat
  = length (openModals w).
Proof.
  revert w. induction closed as [|a closed IH]; intros w Hc Hnd Hsub; simpl.
  - lia.
  - apply NoDup_cons in Hc as [Ha Hc].
    assert (a ∈ openModals w) as Hin by (apply Hsub; left).
    rewrite bool_decide_eq_true_2 by done.
    pose proof (filter_neq_length a _ Hnd Hin) as Hlen.
    set (w' := mkWorld _ _).
    assert (length (openModals (run w' (map Close closed))) + length closed
            = length (openModals w'))%nat as IH'; [|simpl in IH'; lia].
    apply IH; simpl; [done| |].
    + by apply filter_neq_NoDup.
    + intros m Hm. rewrite filter_neq_elem. split.
      * apply Hsub. by right.
      * intros ->. done.
Qed.

(** C1. Open N distinct modals, then close any duplicate-free selection of
    them in any order.  The counter is the number of modals still open; the
    library's ['hidden'] override is held exactly when the counter is
    positive, that is exactly when some modal is still open; while it is
    held the body's overflow is ['hidden'] and the page's own value is kept;
    once the counter is back at zero the body's overflow is the very string
    that was there before the first lock.  A lock leaves the body style
    alone unless the counter goes 0 to 1, an unlock leaves it alone unless
    the counter goes 1 to 0. *)
Theorem scroll_lock_follows_open_modals
    (s0 : string) (ids closed : list nat) :
  NoDup ids → NoDup closed → (∀ m, m ∈ closed → m ∈ ids) →
  let w := run (initialWorld s0) (map Open ids ++ map Close closed) in
  scrollLockCounter (lock w)
    = Z.of_nat (length ids) - Z.of_nat (length closed)
  ∧ (∀ m, m ∈ openModals w ↔ m ∈ ids ∧ m ∉ closed)
  ∧ (scrollLocked (lock w) ↔ 0 < scrollLockCounter (lock w))
  ∧ (0 < scrollLockCounter (lock w) ↔ ∃ m, m ∈ openModals w)
  ∧ (0 < scrollLockCounter (lock w) →
       bodyOverflow (lock w) = "hidden"
       ∧ originalBodyStyle (lock w) = Some s0)
  ∧ (scrollLockCounter (lock w) = 0 →
       bodyOverflow (lock w) = s0 ∧ originalBodyStyle (lock w) = None)
  ∧ (∀ s, scrollLockCounter s ≠ 0 →
       bodyOverflow (lockBodyScroll s) = bodyOverflow s
       ∧ originalBodyStyle (lockBodyScroll s) = originalBodyStyle s)
  ∧ (∀ s, scrollLockCounter s ≠ 1 →
       bodyOverflow (unlockBodyScroll s) = bodyOverflow s
       ∧ originalBodyStyle (unlockBodyScroll s) = originalBodyStyle s).
Proof.
  intros Hids Hclosed Hsub w.
  assert (lock_inv s0 w) as (Hnd & Hc & Hs)
    by (apply run_inv, initial_inv).
  assert (∀ m, m ∈ openModals w ↔ m ∈ ids ∧ m ∉ closed) as Helem.
  { intros m. unfold w. rewrite run_app, closes_elem, opens_elem.
    simpl. rewrite elem_of_nil. tauto. }
  assert (length (openModals w) + length closed = length ids)%nat as Hlen.
  { unfold w. rewrite run_app, closes_length; [| done | |].
    - rewrite opens_length; simpl; [lia|done|].
      intros m _. apply not_elem_of_nil.
    - assert (lock_inv s0 (run (initialWorld s0) (map Open ids))) as [? _]
        by (apply run_inv, initial_inv). done.
    - intros m Hm. rewrite opens_elem. left. by apply Hsub. }
  split; [lia|]. split; [done|].
  assert (0 < scrollLockCounter (lock w) ↔ openModals w ≠ []) as Hpos.
  { rewrite Hc. destruct (openModals w); simpl; [|split; [done|lia]].
    split; [lia|done]. }
  assert (0 < scrollLockCounter (lock w) →
          bodyOverflow (lock w) = "hidden"
          ∧ originalBodyStyle (lock w) = Some s0) as Hheld.
  { intros Hp%Hpos. destruct (openModals w); [done|]. by destruct Hs. }
  assert (scrollLockCounter (lock w) = 0 →
          bodyOverflow (lock w) = s0 ∧ originalBodyStyle (lock w) = None)
    as Hfree.
  { rewrite Hc. destruct (openModals w); [|done]. by destruct Hs. }
  split.
  { split.
    - intros [_ Hsaved]. destruct (decide (0 < scrollLockCounter (lock w)));
        [done|]. destruct Hfree as [_ Hnone]; [lia|done].
    - intros [Hhid Hsaved]%Hheld. split; [done|]. by rewrite Hsaved. }
  split.
  { rewrite Hpos. destruct (openModals w) as [|m ms].
    - split; [done|]. intros [m Hm]. by apply elem_of_nil in Hm.
    - split; [|done]. intros _. exists m. left. }
  split; [exact Hheld|]. split; [exact Hfree|].
  split; intros s Hs'.
  - unfold lockBodyScroll. by destruct (Z.eqb_spec (scrollLockCounter s) 0).
  - unfold unlockBodyScroll.
    destruct (Z.eqb_spec (scrollLockCounter s - 1) 0); [lia|done].
Qed.

(** Three modals opened, two of them closed out of order, on a page whose
    body carried [overflow: auto]. *)
Lemma scroll_lock_follows_open_modals_witness :
  let w := run (initialWorld "auto")
               (map Open [1; 2; 3]%nat ++ map Close [3; 1]%nat) in
  scrollLockCounter (lock w) = 1 ∧ bodyOverflow (lock w) = "hidden".
Proof.
  pose proof (scroll_lock_follows_open_modals "auto" [1; 2; 3]%nat [3; 1]%nat)
    as H.
  destruct H as (Hc & _ & _ & _ & Hhid & _).
  - compute_done.
  - compute_done.
  - apply Forall_forall. compute_done.
  - split; [exact Hc|]. apply Hhid. rewrite Hc. reflexivity.
Defined.

End ScrollLockProperties.

Create Rewrite HintDb focus.

Section ModalProperties.
Import Dom Modal.

(** *** Reading the log *)

Lemma callsOf_same (s : State) : callsOf s s = [].
Proof. unfold callsOf. apply drop_all. Qed.

Lemma callsOf_app (s s' : State) (es : list Effect) :
  log s' = log s ++ es → callsOf s s' = es.
Proof. unfold callsOf. intros ->. apply drop_app_length. Qed.

Lemma update_log (s : State) : log (updateFocusableElements s) = log s.
Proof. unfold updateFocusableElements. by destruct (modalRef s). Qed.

Lemma update_activeElement (s : State) :
  activeElement (updateFocusableElements s) = activeElement s.
Proof. unfold updateFocusableElements. by destruct (modalRef s). Qed.

Lemma update_modalRef (s : State) :
  modalRef (updateFocusableElements s) = modalRef s.
Proof.
  unfold updateFocusableElements. by destruct (modalRef s) eqn:E; simpl.
Qed.

Lemma update_attached (s : State) (container : Node) :
  modalRef s = Some container →
  focusableElements (updateFocusableElements s)
    = getFocusableElements container
  ∧ firstFocusableElement (updateFocusableElements s)
    = head (getFocusableElements container)
  ∧ lastFocusableElement (updateFocusableElements s)
    = last (getFocusableElements container).
Proof. unfold updateFocusableElements. intros ->. by simpl. Qed.

Lemma update_detached (s : State) :
  modalRef s = None → updateFocusableElements s = s.
Proof. unfold updateFocusableElements. by intros ->. Qed.

Lemma update_page (s : State) : page (updateFocusableElements s) = page s.
Proof. unfold updateFocusableElements. by destruct (modalRef s). Qed.

(** *** What a [focus] call changes *)

Lemma focus_log (e : Element) (s : State) :
  log (focus e s) = log s ++ [Focus e].
Proof. unfold focus. by destruct (takesFocus _ _). Qed.

Lemma focus_activeElement (e : Element) (s : State) :
  activeElement (focus e s)
  = if takesFocus (page s) e then Some e else activeElement s.
Proof. unfold focus. by destruct (takesFocus _ _). Qed.

Lemma focus_modalRef (e : Element) (s : State) :
  modalRef (focus e s) = modalRef s.
Proof. unfold focus. by destruct (takesFocus _ _). Qed.

Lemma focus_backdropRef (e : Element) (s : State) :
  backdropRef (focus e s) = backdropRef s.
Proof. unfold focus. by destruct (takesFocus _ _). Qed.

Lemma focus_previous (e : Element) (s : State) :
  previousActiveElement (focus e s) = previousActiveElement s.
Proof. unfold focus. by destruct (takesFocus _ _). Qed.

Lemma focus_focusableElements (e : Element) (s : State) :
  focusableElements (focus e s) = focusableElements s.
Proof. unfold focus. by destruct (takesFocus _ _). Qed.

Lemma focus_first (e : Element) (s : State) :
  firstFocusableElement (focus e s) = firstFocusableElement s.
Proof. unfold focus. by destruct (takesFocus _ _). Qed.

Lemma focus_last (e : Element) (s : State) :
  lastFocusableElement (focus e s) = lastFocusableElement s.
Proof. unfold focus. by destruct (takesFocus _ _). Qed.

Lemma focus_isVisible (e : Element) (s : State) :
  isVisible (focus e s) = isVisible s.
Proof. unfold focus. by destruct (takesFocus _ _). Qed.

Lemma focus_keydownListeners (e : Element) (s : State) :
  keydownListeners (focus e s) = keydownListeners s.
Proof. unfold focus. by destruct (takesFocus _ _). Qed.

Lemma focus_focusTimeout (e : Element) (s : State) :
  focusTimeout (focus e s) = focusTimeout s.
Proof. unfold focus. by destruct (takesFocus _ _). Qed.

Lemma focus_page (e : Element) (s : State) : page (focus e s) = page s.
Proof. unfold focus. by destruct (takesFocus _ _). Qed.

Lemma focus_scroll (e : Element) (s : State) : scroll (focus e s) = scroll s.
Proof. unfold focus. by destruct (takesFocus _ _). Qed.

#[local] Hint Rewrite focus_log focus_activeElement focus_modalRef
  focus_backdropRef focus_previous focus_focusableElements focus_first
  focus_last focus_isVisible focus_keydownListeners focus_focusTimeout
  focus_page focus_scroll : focus.

(** A detached element does not take focus, whatever else the page says. *)
Lemma takesFocus_attached (pg : Page) (e : Element) :
  takesFocus pg e = true → attached e (document pg) = true.
Proof. unfold takesFocus. by intros [? _]%andb_true_iff. Qed.

Local Ltac solve_calls :=
  first [ apply callsOf_same
        | apply callsOf_app; simpl; autorewrite with focus; simpl;
          rewrite ?update_log, <- ?app_assoc, ?app_nil_r; simpl; congruence ].

(** *** The focus trap when [modalRef] holds the dialog *)

(** X5. On Tab in an open modal whose [modalRef] is attached, the list is
    recomputed from the dialog's current content; an empty list suppresses
    the key, Tab on the last element suppresses it and calls [focus] on the
    first, Shift+Tab on the first suppresses it and calls [focus] on the
    last, and any other Tab is left to the platform.  Where the call lands
    is the platform's matter: the active element changes to the target when
    the page lets it take focus, and stays as it was when it does not. *)
Lemma handleKeyDown_tab_attached
    (p : ModalProps) (event : KeyboardEvent) (s : State) (container : Node) :
  isOpen p = true → key event = "Tab" → modalRef s = Some container →
  let l := getFocusableElements container in
  let s' := handleKeyDown p event s in
  let landing target :=
    if takesFocus (page s) target then Some target else activeElement s in
  focusableElements s' = l
  ∧ (l = [] →
       callsOf s s' = [PreventDefault] ∧ activeElement s' = activeElement s)
  ∧ (∀ first, head l = Some first →
       shiftKey event = false →
       sameElement (activeElement s) (last l) = true →
       callsOf s s' = [PreventDefault; Focus first]
       ∧ activeElement s' = landing first)
  ∧ (∀ final, last l = Some final →
       shiftKey event = true →
       sameElement (activeElement s) (head l) = true →
       callsOf s s' = [PreventDefault; Focus final]
       ∧ activeElement s' = landing final)
  ∧ (l ≠ [] →
       sameElement (activeElement s)
                   (if shiftKey event then head l else last l) = false →
       callsOf s s' = [] ∧ activeElement s' = activeElement s).
Proof.
  intros Hopen Hkey Href l s' landing.
  destruct (update_attached s container Href) as (Hl & Hfirst & Hlast).
  pose proof (update_log s) as Hlog.
  pose proof (update_activeElement s) as Hact.
  pose proof (update_page s) as Hpage.
  unfold s', landing, handleKeyDown. rewrite Hopen, Hkey.
  change (String.eqb "Tab" "Escape") with false.
  change (String.eqb "Tab" "Tab") with true. cbv beta iota delta [negb andb].
  set (s1 := updateFocusableElements s) in *.
  rewrite Hl, Hfirst, Hlast, Hact. fold l in Hl, Hfirst, Hlast |- *.
  clearbody l s1.
  destruct l as [|a l'].
  { simpl. repeat split; try done; solve_calls. }
  cbn [length Nat.eqb].
  destruct (shiftKey event) eqn:Hshift.
  - destruct (sameElement (activeElement s) (head (a :: l'))) eqn:Hsame.
    + split.
      { destruct (last (a :: l')); simpl; by autorewrite with focus. }
      split; [done|]. split; [done|]. split.
      * intros final ->  _ _. simpl. split; [solve_calls|].
        autorewrite with focus. simpl. by rewrite Hpage, Hact.
      * intros _ ?. congruence.
    + split; [done|]. split; [done|]. split; [done|]. split.
      * intros final _ _ ?. congruence.
      * intros _ _. split; [solve_calls|done].
  - destruct (sameElement (activeElement s) (last (a :: l'))) eqn:Hsame.
    + split.
      { destruct (head (a :: l')); simpl; by autorewrite with focus. }
      split; [done|]. split; [|split; [done|]].
      * intros first -> _ _. simpl. split; [solve_calls|].
        autorewrite with focus. simpl. by rewrite Hpage, Hact.
      * intros _ ?. congruence.
    + split; [done|]. split; [done|]. split; [|split; [done|]].
      * intros first _ _ ?. congruence.
      * intros _ _. split; [solve_calls|done].
Qed.

(** On a Tab in a state whose [modalRef] is null nothing is recomputed. *)
Lemma handleKeyDown_tab_detached
    (p : ModalProps) (event : KeyboardEvent) (s : State) :
  isOpen p = true → key event = "Tab" → modalRef s = None →
  focusableElements s = [] →
  let s' := handleKeyDown p event s in
  focusableElements s' = []
  ∧ callsOf s s' = [PreventDefault]
  ∧ activeElement s' = activeElement s.
Proof.
  intros Hopen Hkey Href Hnil s'. unfold s', handleKeyDown.
  rewrite Hopen, Hkey, (update_detached s Href), Hnil. simpl.
  repeat split; [done|]. by apply callsOf_app.
Qed.

(** *** Initial focus *)

(** X6. When the timer fires on a modal whose [modalRef] holds the dialog, one
    [focus] call is made, on the target chosen by the priority
    initial-focus target, first focusable descendant, container.  The
    active element becomes that target when the page lets it take focus and
    stays as it was when it does not. *)
Lemma focusTimerFires_attached
    (p : ModalProps) (s : State) (dialog : Node) :
  focusTimeout s = true → modalRef s = Some dialog →
  let s' := focusTimerFires p s in
  let target := initialFocus (current (initialFocusRef p)) dialog in
  callsOf s s' = [Focus target]
  ∧ activeElement s'
    = (if takesFocus (page s) target then Some target else activeElement s)
  ∧ focusableElements s' = getFocusableElements dialog.
Proof.
  intros Hpending Href s' target.
  unfold s', target, focusTimerFires, initialFocus. rewrite Hpending. simpl.
  set (s0 := set_isVisible true (set_focusTimeout false s)).
  assert (modalRef s0 = Some dialog) as Href0 by done.
  destruct (update_attached s0 dialog Href0) as (Hl & Hfirst & _).
  pose proof (update_log s0) as Hlog.
  pose proof (update_modalRef s0) as Hmr.
  pose proof (update_page s0) as Hpage.
  pose proof (update_activeElement s0) as Hact.
  set (s1 := updateFocusableElements s0) in *. rewrite Hfirst.
  change (log s0) with (log s) in Hlog. rewrite Href0 in Hmr.
  change (page s0) with (page s) in Hpage.
  change (activeElement s0) with (activeElement s) in Hact.
  destruct (current (initialFocusRef p)) as [t|]; [|
    destruct (head (getFocusableElements dialog)) as [f|]; [|rewrite Hmr]];
    simpl; (split; [solve_calls|]); autorewrite with focus;
    by rewrite Hpage, Hact, Hl.
Qed.

(** *** What the handlers leave alone *)

Lemma update_previous (s : State) :
  previousActiveElement (updateFocusableElements s) = previousActiveElement s.
Proof.
  unfold updateFocusableElements. by destruct (modalRef s) eqn:E; simpl.
Qed.

Lemma focusIfAny_previous (e : option Element) (s : State) :
  previousActiveElement (focusIfAny e s) = previousActiveElement s.
Proof. destruct e; simpl; by autorewrite with focus. Qed.

Lemma step_previous (p : ModalProps) (s : State) (e : Event) :
  previousActiveElement (step p s e) = previousActiveElement s.
Proof.
  destruct e as [event|target| |dialog|pg|to]; simpl.
  - unfold handleKeyDown.
    repeat match goal with
           | |- context [if ?b then _ else _] => destruct b
           end;
      rewrite ?focusIfAny_previous; simpl; rewrite ?update_previous; done.
  - unfold handleBackdropClick. by destruct (_ && _).
  - unfold focusTimerFires. destruct (negb (focusTimeout s)); [done|].
    destruct (current (initialFocusRef p)); simpl;
      [by rewrite focus_previous, update_previous|].
    destruct (firstFocusableElement _); simpl;
      rewrite ?focus_previous, ?focusIfAny_previous, update_previous; done.
  - by destruct (modalRef s).
  - done.
  - done.
Qed.

Lemma run_previous (p : ModalProps) (evs : list Event) (s : State) :
  previousActiveElement (run p s evs) = previousActiveElement s.
Proof.
  revert s. induction evs as [|e evs IH]; intros s; [done|].
  change (run p s (e :: evs)) with (run p (step p s e) evs).
  by rewrite IH, step_previous.
Qed.

(** *** A Modal that was given a [ref] *)

Lemma step_detached (p : ModalProps) (s : State) (e : Event) :
  modalRef s = None ∧ focusableElements s = [] →
  modalRef (step p s e) = None ∧ focusableElements (step p s e) = [].
Proof.
  intros [Href Hnil].
  destruct e as [event|target| |dialog|pg|to]; simpl.
  - unfold handleKeyDown. rewrite (update_detached s Href), Hnil. simpl.
    repeat match goal with
           | |- context [if ?b then _ else _] => destruct b
           end; done.
  - unfold handleBackdropClick. by destruct (_ && _).
  - unfold focusTimerFires. destruct (negb (focusTimeout s)); [done|].
    rewrite update_detached by done. simpl.
    destruct (current (initialFocusRef p)); [by autorewrite with focus|].
    destruct (firstFocusableElement s); simpl;
      [by autorewrite with focus|]. by rewrite Href.
  - by rewrite Href.
  - done.
  - done.
Qed.

Lemma run_detached (p : ModalProps) (evs : list Event) (s : State) :
  modalRef s = None ∧ focusableElements s = [] →
  modalRef (run p s evs) = None ∧ focusableElements (run p s evs) = [].
Proof.
  revert s. induction evs as [|e evs IH]; intros s Hs; [done|].
  apply (IH (step p s e)). by apply step_detached.
Qed.

(** X7. With a forwarded ref the dialog never reaches [modalRef]: whatever
    happens while the modal is open, the ref stays null and the stored list
    stays empty, so every Tab is suppressed. *)
Lemma forwarded_ref_leaves_modalRef_null
    (p : ModalProps) (dialog : Node) (active : option Element)
    (evs : list Event) :
  let s := run p (mounted true p dialog active) evs in
  modalRef s = None ∧ focusableElements s = [].
Proof.
  apply run_detached. unfold mounted, effect. by destruct (isOpen p).
Qed.

(** *** The claims about the Modal *)

(** C2. The focus trap on a Modal that was given a [ref].  The dialog holds
    two buttons.  Because the dialog element went to the caller's ref,
    [modalRef] is null and Tab recomputes nothing: the stored list stays
    empty although the dialog has two focusable descendants, the key is
    suppressed, and focus neither wraps from the last button to the first
    on Tab nor from the first to the last on Shift+Tab.  The same modal
    without a [ref] recomputes the list and wraps both ways. *)
Theorem tab_does_not_wrap_with_forwarded_ref :
  let p := onlyOpen true in
  let focusOn forwardedRef button :=
    step p (opened forwardedRef p dialogWithButtons (Some trigger))
           (FocusMoved (Some button)) in
  getFocusableElements dialogWithButtons = [okButton; cancelButton]
  ∧ (let s := focusOn true cancelButton in
     let s' := handleKeyDown p tab s in
     modalRef s = None
     ∧ focusableElements s' = []
     ∧ callsOf s s' = [PreventDefault]
     ∧ activeElement s' = Some cancelButton)
  ∧ (let s := focusOn true okButton in
     let s' := handleKeyDown p shiftTab s in
     focusableElements s' = []
     ∧ callsOf s s' = [PreventDefault]
     ∧ activeElement s' = Some okButton)
  ∧ (let s := focusOn false cancelButton in
     let s' := handleKeyDown p tab s in
     focusableElements s' = [okButton; cancelButton]
     ∧ callsOf s s' = [PreventDefault; Focus okButton]
     ∧ activeElement s' = Some okButton)
  ∧ (let s := focusOn false okButton in
     let s' := handleKeyDown p shiftTab s in
     callsOf s s' = [PreventDefault; Focus cancelButton]
     ∧ activeElement s' = Some cancelButton).
Proof. vm_compute. repeat split. Qed.

(** C3. Initial focus on a Modal that was given a [ref] and no
    initial-focus target.  When the timer fires no [focus] call is made at
    all, neither on the first focusable descendant nor on the container:
    focus stays on the element outside the dialog.  The same modals without
    a [ref] receive focus on the first button, or on the container when
    nothing inside is focusable. *)
Theorem no_initial_focus_with_forwarded_ref :
  let p := onlyOpen true in
  let before forwardedRef dialog :=
    mounted forwardedRef p dialog (Some trigger) in
  let after forwardedRef dialog :=
    opened forwardedRef p dialog (Some trigger) in
  getFocusableElements dialogWithText = []
  ∧ attached trigger dialogWithText = false
  ∧ callsOf (before true dialogWithText) (after true dialogWithText) = []
  ∧ activeElement (after true dialogWithText) = Some trigger
  ∧ callsOf (before true dialogWithButtons) (after true dialogWithButtons) = []
  ∧ activeElement (after true dialogWithButtons) = Some trigger
  ∧ callsOf (before false dialogWithText) (after false dialogWithText)
    = [Focus container]
  ∧ callsOf (before false dialogWithButtons) (after false dialogWithButtons)
    = [Focus okButton].
Proof. vm_compute. repeat split. Qed.




(** C5. In an open modal the Escape key calls [onClose] exactly when
    escape-dismiss is enabled, and then after [preventDefault]; a click
    that reaches [handleBackdropClick] (one on the backdrop or on anything
    inside it) calls [onClose] exactly when backdrop-dismiss is enabled and
    the click target is the backdrop element itself.  Either flag is
    enabled unless the caller sets it, and neither handler looks at the
    other's flag.  In terms of the props: [closeOnEscape={false}] makes
    Escape call nothing, and leaving the prop out or passing [true] makes
    it call [preventDefault] and [onClose]; [closeOnBackdropClick={false}]
    makes every click call nothing, and leaving it out or passing [true]
    makes a click on the backdrop itself call [onClose]; a click elsewhere
    calls nothing whatever the props. *)
Theorem dismissal_by_escape_and_backdrop
    (p : ModalProps) (s : State) (shift : bool) (target : Element) :
  isOpen p = true →
  let byEscape := callsOf s (handleKeyDown p (mkKeyboardEvent "Escape" shift) s) in
  let byClick := callsOf s (handleBackdropClick p target s) in
  (OnClose ∈ byEscape ↔ closeOnEscapeOf p = true)
  ∧ (closeOnEscapeOf p = true → byEscape = [PreventDefault; OnClose])
  ∧ (closeOnEscapeOf p = false → byEscape = [])
  ∧ (OnClose ∈ byClick ↔
       closeOnBackdropClickOf p = true
       ∧ sameElement (Some target) (backdropRef s) = true)
  ∧ (∀ b, backdropRef s = Some b →
       (OnClose ∈ byClick ↔
          closeOnBackdropClickOf p = true ∧ eid target = eid b))
  ∧ (closeOnEscape p = None → closeOnEscapeOf p = true)
  ∧ (closeOnBackdropClick p = None → closeOnBackdropClickOf p = true)
  ∧ (∀ b event, handleKeyDown (withCloseOnBackdropClick b p) event s
                = handleKeyDown p event s)
  ∧ (∀ b, handleBackdropClick (withCloseOnEscape b p) target s
          = handleBackdropClick p target s)
  ∧ (closeOnEscape p = Some false → byEscape = [])
  ∧ (closeOnEscape p ≠ Some false → byEscape = [PreventDefault; OnClose])
  ∧ (closeOnBackdropClick p = Some false → byClick = [])
  ∧ (closeOnBackdropClick p ≠ Some false →
     sameElement (Some target) (backdropRef s) = true → byClick = [OnClose])
  ∧ (sameElement (Some target) (backdropRef s) = false → byClick = []).
Proof.
  intros Hopen byEscape byClick.
  assert (byEscape = if closeOnEscapeOf p then [PreventDefault; OnClose] else [])
    as HE.
  { unfold byEscape, handleKeyDown. rewrite Hopen. simpl.
    destruct (closeOnEscapeOf p); simpl; solve_calls. }
  assert (byClick = if closeOnBackdropClickOf p
                       && sameElement (Some target) (backdropRef s)
                    then [OnClose] else []) as HC.
  { unfold byClick, handleBackdropClick.
    destruct (_ && _); solve_calls. }
  assert (OnClose ∈ byClick ↔
            closeOnBackdropClickOf p = true
            ∧ sameElement (Some target) (backdropRef s) = true) as HCiff.
  { rewrite HC, <- andb_true_iff. destruct (_ && _).
    - split; [done|]. intros _. left.
    - split; [|done]. intros H. by apply elem_of_nil in H. }
  split.
  { rewrite HE. destruct (closeOnEscapeOf p).
    - split; [done|]. intros _. right. left.
    - split; [|done]. intros H. by apply elem_of_nil in H. }
  split; [by intros H; rewrite HE, H|].
  split; [by intros H; rewrite HE, H|].
  split; [exact HCiff|].
  split.
  { intros b Hb. rewrite HCiff, Hb. simpl. by rewrite Nat.eqb_eq. }
  split; [unfold closeOnEscapeOf; by intros ->|].
  split; [unfold closeOnBackdropClickOf; by intros ->|].
  split; [done|]. split; [done|].
  rewrite HE, HC. unfold closeOnEscapeOf, closeOnBackdropClickOf.
  split; [by intros ->|].
  split; [by destruct (closeOnEscape p) as [[]|]|].
  split; [by intros ->|].
  split; [intros ? ->; by destruct (closeOnBackdropClick p) as [[]|]|].
  intros ->. by rewrite andb_false_r.
Qed.

Lemma dismissal_by_escape_and_backdrop_witness :
  let p := onlyOpen true in
  let s := opened false p dialogWithButtons (Some trigger) in
  isOpen p = true
  ∧ callsOf s (handleKeyDown p escape s) = [PreventDefault; OnClose]
  ∧ callsOf s (handleBackdropClick p okButton s) = [].
Proof.
  split; [reflexivity|].
  pose proof (dismissal_by_escape_and_backdrop (onlyOpen true)
                (opened false (onlyOpen true) dialogWithButtons (Some trigger))
                false okButton eq_refl)
    as (_ & Hescape & _ & _ & _ & _ & _ & _ & _ & _ & _ & _ & _ & Hclick).
  split; [apply Hescape|apply Hclick]; reflexivity.
Defined.

End ModalProperties.

Section AlertProperties.
Import React Alert MoreAlerts.

(** C6.  A dismissible alert with a removal callback, whose dismiss button
    is clicked twice before the exit has ended.  The first click starts the
    exit and schedules the timeout.  The button that is still in the DOM
    during the exit carries the handler of the render before the exit,
    whose [isExiting] is [false], so the second click passes the guard: it
    is not a no-op, a second timeout is scheduled and the removal callback
    is called twice.  The guard does stop a handler created while exiting,
    but no element carries one.  The phases themselves only advance, and
    on an alert whose [dismissible] is left out or [false] a click or a
    key does nothing. *)
Theorem second_dismiss_request_calls_onDismiss_again :
  let p := dismissibleAlert success (Some 4%nat) in
  let clicked := run initial [(p, RequestDismiss)] in
  let again := step clicked (p, RequestDismiss) in
  let ended := run again [(p, TimeoutFires); (p, TimeoutFires)] in
  let unasked q :=
    run initial [(q, RequestDismiss); (q, KeyDown "Enter");
                 (q, TimeoutFires)] in
  dismissible p = Some true
  ∧ dismissible (plainAlert success) = None
  ∧ phase (unasked (plainAlert success)) = visible
  ∧ log (unasked (plainAlert success)) = []
  ∧ dismissible (fixedAlert success (Some 4%nat)) = Some false
  ∧ phase (unasked (fixedAlert success (Some 4%nat))) = visible
  ∧ log (unasked (fixedAlert success (Some 4%nat))) = []
  ∧ phase initial = visible
  ∧ phase clicked = exiting
  ∧ isExiting clicked = true
  ∧ element clicked = Some (mkClosure p false)
  ∧ pendingTimeouts clicked = [Some 4%nat]
  ∧ phase again = exiting
  ∧ pendingTimeouts again = [Some 4%nat; Some 4%nat]
  ∧ handleDismiss (mkClosure p true) clicked = clicked
  ∧ log ended = [OnDismiss 4%nat; OnDismiss 4%nat]
  ∧ dismissCalls ended = 2%nat
  ∧ phase ended = removed.
Proof. vm_compute. repeat split. Qed.

End AlertProperties.

Section RenderProperties.
Import React Types.

(** *** Props objects *)

Lemma restOf_named (names : list string) (m : gmap string PropValue)
    (k : string) :
  k ∈ names → restOf names m !! k = None.
Proof.
  induction names as [|a names IH]; simpl.
  - intros H. by apply elem_of_nil in H.
  - intros H. destruct (decide (a = k)) as [->|Hne].
    + apply lookup_delete_eq.
    + rewrite lookup_delete_ne by done. apply IH.
      apply elem_of_cons in H as [->|H]; done.
Qed.

Lemma restOf_other (names : list string) (m : gmap string PropValue)
    (k : string) :
  k ∉ names → restOf names m !! k = m !! k.
Proof.
  induction names as [|a names IH]; simpl; [done|].
  intros [Hne Hk]%not_elem_of_cons.
  rewrite lookup_delete_ne by done. by apply IH.
Qed.

Lemma object_lookup_None (entries : list (string * option PropValue))
    (k : string) :
  k ∉ entries.*1 → object entries !! k = None.
Proof.
  intros Hk. unfold object. apply not_elem_of_list_to_map_1.
  intros Hin. apply Hk. clear Hk.
  induction entries as [|[k' [v|]] entries IH]; simpl in *.
  - done.
  - apply elem_of_cons in Hin as [->|Hin]; [left|right; by apply IH].
  - right. by apply IH.
Qed.

Lemma spread_lookup (a b : gmap string PropValue) (k : string) :
  spread a b !! k = match b !! k with Some v => Some v | None => a !! k end.
Proof.
  unfold spread. rewrite lookup_union.
  by destruct (b !! k), (a !! k).
Qed.

Lemma onlyHyphenated_lookup (m : gmap string PropValue) (k : string) :
  onlyHyphenated m → hyphenated k = false → m !! k = None.
Proof.
  intros Hm Hk. destruct (m !! k) eqn:E; [|done].
  assert (hyphenated k = true) by (apply Hm; by rewrite E). congruence.
Qed.

End RenderProperties.

Section RegionProperties.
Import React Types ModalRegions Regions.

Lemma useModalContext_outside (ancestors : list Ancestor) :
  existsb (isParent ModalParent) ancestors = false →
  useModalContext ancestors = None.
Proof.
  unfold useModalContext.
  induction ancestors as [|[v| |name] ancestors IH]; simpl; try done.
Qed.

Lemma useModalContext_inside (ancestors : list Ancestor) :
  existsb (isParent ModalParent) ancestors = true →
  is_Some (useModalContext ancestors).
Proof.
  unfold useModalContext.
  induction ancestors as [|[v| |name] ancestors IH]; simpl; done.
Qed.

(** C7, as the specification words it, fails: a Card header rendered with
    no Card anywhere above it returns its element; nothing is thrown.  The
    same holds for the Card body and footer. *)
Lemma card_regions_render_outside_a_card :
  outsideParent CardHeaderR [] = true
  ∧ render noStyles noStyles CardHeaderR [] textRegion
    = Returns (RElement "motion.div" {[ "className" := VStr "" ]}
                        [RText "Details"])
  ∧ throws (render noStyles noStyles CardHeaderR [] textRegion) = false
  ∧ throws (render noStyles noStyles CardBodyR [] textRegion) = false
  ∧ throws (render noStyles noStyles CardFooterR [] textRegion) = false.
Proof. vm_compute. repeat split. Qed.

(** C7, amended.  A region rendered with no component of its parent's kind
    above it: the three Modal regions throw, at once and with a message
    naming the region; the three Card regions, which look up no context,
    return their element. *)
Theorem regions_outside_their_parent
    (modalStyles cardStyles : string → option string)
    (r : Region) (ancestors : list Ancestor) (p : ModalHeaderProps) :
  outsideParent r ancestors = true →
  match parentOf r with
  | ModalParent =>
      render modalStyles cardStyles r ancestors p
      = Throws (regionName r +:+ " must be used within a Modal component")
  | CardParent =>
      ∃ node, render modalStyles cardStyles r ancestors p = Returns node
              ∧ tagOf node = Some "motion.div"
  end.
Proof.
  unfold outsideParent. intros Hout%negb_true_iff.
  destruct r; simpl in *;
    try (unfold ModalHeader, ModalBody, ModalFooter;
         by rewrite (useModalContext_outside ancestors Hout));
    by eexists.
Qed.

Lemma regions_outside_their_parent_witness :
  outsideParent ModalHeaderR [CardAbove; OtherAbove "App"] = true
  ∧ render noStyles noStyles ModalHeaderR [CardAbove; OtherAbove "App"]
           textRegion
    = Throws "ModalHeader must be used within a Modal component".
Proof.
  split; [reflexivity|].
  apply (regions_outside_their_parent noStyles noStyles ModalHeaderR
           [CardAbove; OtherAbove "App"] textRegion).
  reflexivity.
Defined.

(** Inside a Modal the Modal regions return their element. *)
Lemma modal_regions_inside_a_modal
    (modalStyles cardStyles : string → option string)
    (r : Region) (ancestors : list Ancestor) (p : ModalHeaderProps) :
  parentOf r = ModalParent → outsideParent r ancestors = false →
  throws (render modalStyles cardStyles r ancestors p) = false.
Proof.
  unfold outsideParent. intros Hpar Hin%negb_false_iff. rewrite Hpar in Hin.
  destruct (useModalContext_inside ancestors Hin) as [v Hv].
  destruct r; simpl in *; try done;
    unfold ModalHeader, ModalBody, ModalFooter; by rewrite Hv.
Qed.

End RegionProperties.

Section AnimationProperties.
Import Animations.

(** C8, as the specification words it, fails.  The presets are built when
    the module is evaluated.  If the preference was not set then and is set
    when the modal animates, the modal presets still carry their full
    durations of 0.3 s, 0.15 s and 0.4 s.  And [staggerContainer], whose
    transition is timed by two delays of 0.1 s, does not depend on the
    window at all. *)
Lemma presets_keep_the_preference_read_at_load :
  let atLoad := Some (mkWindow false 1280) in
  let now := Some (mkWindow true 1280) in
  shouldReduceMotion now = true
  ∧ map duration (transitionsOf (modalBackdrop atLoad))
    = [Some 0.3%Q; Some 0.3%Q]
  ∧ map duration (transitionsOf (modalEnter atLoad))
    = [Some 0.3%Q; Some 0.15%Q]
  ∧ map duration (transitionsOf (modalMobileSlide atLoad))
    = [Some 0.4%Q; Some 0.3%Q]
  ∧ transitionsOf staggerContainer
    = [mkTransition None None None (Some 0.1%Q) (Some 0.1%Q) None].
Proof. vm_compute. repeat split. Qed.

(** C8, amended.  [getTransition] reads the window's reduced-motion
    preference when it is called: on a window whose preference is set it
    returns the transition with a duration of 0.01 s, whatever duration it
    had or lacked, and everything else unchanged; on a window whose
    preference is not set, and where there is no window, it returns the
    transition itself.  Each of the ten presets built with it makes that
    call when the module is evaluated: with the preference set at that
    moment every one of their transitions lasts 0.01 s; with the preference
    not set then, or no window, each keeps its own duration, and a
    preference set later, when a call of [getTransition] does yield
    0.01 s, changes none of them.  [staggerContainer] is timed by two
    delays of 0.1 s, has no duration and depends on no window.  Variants
    made by [createVariant] follow the preference at the moment of that
    call. *)
Theorem getTransition_reads_the_preference_when_called (t : Transition) :
  let reduced : list (string * list (option Q)) :=
    [ ("fadeInUp", [Some 0.01%Q]); ("fadeIn", [Some 0.01%Q]);
      ("slideUp", [Some 0.01%Q]);
      ("buttonHover", [Some 0.01%Q; Some 0.01%Q]);
      ("hoverLift", [Some 0.01%Q]);
      ("modalBackdrop", [Some 0.01%Q; Some 0.01%Q]);
      ("modalEnter", [Some 0.01%Q; Some 0.01%Q]);
      ("modalMobileSlide", [Some 0.01%Q; Some 0.01%Q]);
      ("alertSlideIn", [Some 0.01%Q; Some 0.01%Q]);
      ("toastSlideIn", [Some 0.01%Q; Some 0.01%Q]) ] in
  let full : list (string * list (option Q)) :=
    [ ("fadeInUp", [Some 0.6%Q]); ("fadeIn", [Some 0.3%Q]);
      ("slideUp", [Some 0.3%Q]);
      ("buttonHover", [Some 0.15%Q; Some 0.15%Q]);
      ("hoverLift", [Some 0.3%Q]);
      ("modalBackdrop", [Some 0.3%Q; Some 0.3%Q]);
      ("modalEnter", [Some 0.3%Q; Some 0.15%Q]);
      ("modalMobileSlide", [Some 0.4%Q; Some 0.3%Q]);
      ("alertSlideIn", [Some 0.3%Q; Some 0.15%Q]);
      ("toastSlideIn", [Some 0.4%Q; Some 0.3%Q]) ] in
  (∀ win, prefersReducedMotion win = true →
     shouldReduceMotion (Some win) = true
     ∧ getTransition (Some win) t
       = mkTransition (Some 0.01%Q) (ease t) (repeat t)
                      (staggerChildren t) (delayChildren t) (delay t)
     ∧ durationsOf (getTransitionPresets (Some win)) = reduced
     ∧ ∀ initial animate exit t' tr,
         transition initial = None →
         tr ∈ transitionsOf (createVariant (Some win) initial animate exit t') →
         duration tr = Some 0.01%Q)
  ∧ (∀ win, prefersReducedMotion win = false →
     shouldReduceMotion (Some win) = false
     ∧ getTransition (Some win) t = t
     ∧ durationsOf (getTransitionPresets (Some win)) = full
     ∧ ∀ initial animate exit t' tr,
         transition initial = None →
         tr ∈ transitionsOf (createVariant (Some win) initial animate exit t') →
         tr = default transitions_base t')
  ∧ (shouldReduceMotion None = false
     ∧ getTransition None t = t
     ∧ durationsOf (getTransitionPresets None) = full)
  ∧ (∀ atLoad now,
       prefersReducedMotion atLoad = false → prefersReducedMotion now = true →
       duration (getTransition (Some now) t) = Some 0.01%Q
       ∧ durationsOf (getTransitionPresets (Some atLoad)) = full
       ∧ durationsOf (getTransitionPresets (Some atLoad))
         ≠ durationsOf (getTransitionPresets (Some now)))
  ∧ transitionsOf staggerContainer
    = [mkTransition None None None (Some 0.1%Q) (Some 0.1%Q) None]
  ∧ map fst (getTransitionPresets None)
    = List.filter (fun name => negb (String.eqb name "staggerContainer")
                               && negb (String.eqb name "spinnerRotate"))
                  (map fst (presets None)).
Proof.
  intros reduced full.
  assert (∀ win, prefersReducedMotion win = true →
            durationsOf (getTransitionPresets (Some win)) = reduced) as Hset.
  { intros [r width]. simpl. by intros ->. }
  assert (∀ win, prefersReducedMotion win = false →
            durationsOf (getTransitionPresets (Some win)) = full) as Hunset.
  { intros [r width]. simpl. by intros ->. }
  split.
  { intros win Hwin. split; [done|].
    split; [unfold getTransition; simpl; by rewrite Hwin|].
    split; [by apply Hset|].
    intros initial animate exit t' tr Hinitial.
    unfold createVariant, transitionsOf, getTransition. simpl.
    rewrite Hwin, Hinitial.
    destruct exit as [e|]; simpl; intros Htr;
      repeat (apply elem_of_cons in Htr as [->|Htr]; [done|]);
      by apply elem_of_nil in Htr. }
  split.
  { intros win Hwin. split; [done|].
    split; [unfold getTransition; simpl; by rewrite Hwin|].
    split; [by apply Hunset|].
    intros initial animate exit t' tr Hinitial.
    unfold createVariant, transitionsOf, getTransition. simpl.
    rewrite Hwin, Hinitial.
    destruct exit as [e|]; simpl; intros Htr;
      repeat (apply elem_of_cons in Htr as [->|Htr]; [done|]);
      by apply elem_of_nil in Htr. }
  split; [done|].
  split.
  { intros atLoad now Hload Hnow.
    split; [unfold getTransition; simpl; by rewrite Hnow|].
    rewrite (Hset now Hnow), (Hunset atLoad Hload). split; [done|].
    discriminate. }
  split; done.
Qed.

End AnimationProperties.

Section ButtonProperties.
Import React Types Button.

Lemma button_motionProps_other
    (w : option Animations.Window) (p : ButtonProps) (k : string) :
  k ∉ ["variants"; "whileHover"; "whileTap"] → motionProps w p !! k = None.
Proof. intros Hk. unfold motionProps. by apply object_lookup_None. Qed.

(** The attributes the component sets itself, as they reach the element:
    [disabled] always as computed, the two ARIA attributes unless the
    caller passed its own. *)
Lemma button_attributes
    (styles : string → option string) (w : option Animations.Window)
    (p : ButtonProps) :
  let props := propsOf (Button styles w p) in
  props !! "disabled" = Some (VBool (isDisabled p))
  ∧ props !! "aria-busy"
    = Some (default (VBool (default false (loading p))) (rest p !! "aria-busy"))
  ∧ props !! "aria-disabled"
    = Some (default (VBool (isDisabled p)) (rest p !! "aria-disabled")).
Proof.
  intros props. unfold props, Button. cbn [propsOf].
  rewrite !spread_lookup.
  rewrite (restOf_named named _ "disabled") by compute_done.
  rewrite !(restOf_other named) by compute_done.
  rewrite !button_motionProps_other by compute_done.
  repeat split.
  - by destruct (rest p !! "aria-busy").
  - by destruct (rest p !! "aria-disabled").
Qed.

(** C9, as stated, fails: a loading button to which the caller passes
    [aria-busy={false}] is rendered disabled but not marked busy, because
    the pass-through attributes are spread after the component's own. *)
Lemma loading_button_can_be_marked_not_busy :
  let node := Button Regions.noStyles None loadingButtonNotBusy in
  loading loadingButtonNotBusy = Some true
  ∧ propsOf node !! "disabled" = Some (VBool true)
  ∧ propsOf node !! "aria-busy" = Some (VBool false)
  ∧ propsOf node !! "aria-busy" ≠ Some (VBool true).
Proof. vm_compute. repeat split. discriminate. Qed.

(** C9, amended.  A Button rendered with [loading] set is a disabled
    button element; it is marked [aria-busy] and [aria-disabled] unless the
    caller passes that attribute itself, in which case the caller's value
    stands; its children are the spinner and the content, with nothing in
    the place of either icon; it has no hover or tap animation.  For any
    props the element is enabled exactly when both [disabled] and
    [loading] are false. *)
Theorem loading_button_is_disabled
    (styles : string → option string) (w : option Animations.Window)
    (p : ButtonProps) :
  loading p = Some true →
  let node := Button styles w p in
  tagOf node = Some "motion.button"
  ∧ propsOf node !! "disabled" = Some (VBool true)
  ∧ propsOf node !! "aria-busy"
    = Some (default (VBool true) (rest p !! "aria-busy"))
  ∧ propsOf node !! "aria-disabled"
    = Some (default (VBool true) (rest p !! "aria-disabled"))
  ∧ childrenOf node
    = [spinner styles w; RBool false; content styles p; RBool false]
  ∧ List.filter (fun c => negb (rendersNothing c)) (childrenOf node)
    = [spinner styles w; content styles p]
  ∧ motionProps w p !! "whileHover" = None
  ∧ motionProps w p !! "whileTap" = None
  ∧ (∀ q : ButtonProps,
       propsOf (Button styles w q) !! "disabled" = Some (VBool false)
       ↔ default false (disabled q) = false ∧ default false (loading q) = false).
Proof.
  intros Hload node.
  destruct (button_attributes styles w p) as (Hd & Hb & Ha).
  assert (isDisabled p = true) as Hdis.
  { unfold isDisabled. rewrite Hload. simpl. apply orb_true_r. }
  rewrite Hdis in Hd, Ha. rewrite Hload in Hb.
  change (default false (Some true)) with true in Hb.
  assert (childrenOf node
          = [spinner styles w; RBool false; content styles p; RBool false])
    as Hch.
  { unfold node, Button. rewrite Hload. reflexivity. }
  split; [done|]. split; [exact Hd|]. split; [exact Hb|]. split; [exact Ha|].
  split; [exact Hch|]. split.
  { by rewrite Hch. }
  split.
  { unfold motionProps. rewrite Hdis. simpl.
    by destruct (negb (default false (disableAnimations p))). }
  split.
  { unfold motionProps. rewrite Hdis. simpl.
    by destruct (negb (default false (disableAnimations p))). }
  intros q. destruct (button_attributes styles w q) as (Hq & _ & _).
  rewrite Hq. unfold isDisabled.
  destruct (default false (disabled q)), (default false (loading q));
    simpl; split; try done; intros [? ?]; done.
Qed.

Lemma loading_button_is_disabled_witness :
  loading loadingButton = Some true
  ∧ propsOf (Button Regions.noStyles None loadingButton) !! "disabled"
    = Some (VBool true).
Proof.
  split; [reflexivity|].
  apply (loading_button_is_disabled Regions.noStyles None loadingButton).
  reflexivity.
Defined.

End ButtonProperties.

Section CardProperties.
Import React Types Card.

Lemma card_motionProps_other
    (w : option Animations.Window) (p : CardProps) (k : string) :
  k ∉ ["variants"; "initial"; "animate"; "whileHover"; "transition"] →
  motionProps w p !! k = None.
Proof. intros Hk. unfold motionProps. by apply object_lookup_None. Qed.

(** C10. For a caller that respects [CardProps] (what it adds beyond the
    declared properties is hyphenated attributes only), the Card is a
    button element carrying [type="button"] and the handler exactly when
    [onClick] is given, and a plain div with neither otherwise; in both
    cases its class is [cardClasses] of the props and its only child is
    [children]. *)
Theorem card_is_a_button_iff_onClick
    (styles : string → option string) (w : option Animations.Window)
    (p : CardProps) :
  onlyHyphenated (rest p) →
  let node := Card styles w p in
  (tagOf node = Some "motion.button" ↔ is_Some (onClick p))
  ∧ (tagOf node = Some "motion.div" ↔ onClick p = None)
  ∧ (∀ handler, onClick p = Some handler →
       propsOf node !! "onClick" = Some (VFn handler)
       ∧ propsOf node !! "type" = Some (VStr "button"))
  ∧ (onClick p = None →
       propsOf node !! "onClick" = None ∧ propsOf node !! "type" = None)
  ∧ propsOf node !! "className" = Some (VStr (cardClasses styles p))
  ∧ childrenOf node = [children p].
Proof.
  intros Hrest node.
  assert (restOf named (rest p) !! "type" = None) as Htype.
  { rewrite restOf_other by compute_done.
    by apply onlyHyphenated_lookup. }
  assert (restOf named (rest p) !! "onClick" = None) as Hclick
    by (apply restOf_named; compute_done).
  assert (restOf named (rest p) !! "className" = None) as Hclass
    by (apply restOf_named; compute_done).
  unfold node, Card.
  destruct (onClick p) as [h|] eqn:Hon; cbn [tagOf propsOf childrenOf];
    rewrite !spread_lookup, Htype, Hclick, Hclass,
      !card_motionProps_other by compute_done.
  - split; [split; [by eexists|done]|]. split; [done|].
    split; [by intros handler [= ->]|]. done.
  - split; [split; [done|by intros [? ?]]|]. done.
Qed.

Lemma card_is_a_button_iff_onClick_witness :
  onlyHyphenated (rest clickableCard)
  ∧ tagOf (Card Regions.noStyles None clickableCard) = Some "motion.button".
Proof.
  assert (onlyHyphenated (rest clickableCard)) as Hrest.
  { intros name. unfold clickableCard, rest.
    destruct (decide (name = "data-testid")) as [->|Hne]; [done|].
    rewrite lookup_singleton_ne by done. by intros [? ?]. }
  split; [exact Hrest|].
  apply (card_is_a_button_iff_onClick Regions.noStyles None clickableCard Hrest).
  by eexists.
Defined.

End CardProperties.

(* ===================================================================== *)
(** * Part III. Further properties of the code                            *)
(* ===================================================================== *)

Section ScrollLockMore.
Import ScrollLock.

(** X1. Taking the lock and giving it back is a round trip: the counter,
    the saved value and the body's overflow are all as before, provided the
    state is not at counter zero with a stale saved value. *)
Theorem unlock_after_lock (s : State) :
  (scrollLockCounter s = 0 → originalBodyStyle s = None) →
  unlockBodyScroll (lockBodyScroll s) = s.
Proof.
  destruct s as [c o b]. simpl. intros Hnone.
  unfold lockBodyScroll, unlockBodyScroll. simpl.
  destruct (Z.eqb_spec c 0) as [->|Hc]; simpl.
  - by rewrite Hnone.
  - rewrite Z.add_simpl_r. by destruct (Z.eqb_spec c 0).
Qed.

Lemma unlock_after_lock_witness :
  (scrollLockCounter (initial "scroll") = 0 →
   originalBodyStyle (initial "scroll") = None)
  ∧ unlockBodyScroll (lockBodyScroll (initial "scroll")) = initial "scroll".
Proof.
  split; [reflexivity|].
  apply (unlock_after_lock (initial "scroll")). reflexivity.
Defined.

Lemma iter_unlock_initial (k : nat) (s0 : string) :
  Nat.iter k unlockBodyScroll (initial s0) = mkState (- Z.of_nat k) None s0.
Proof.
  induction k as [|k IH]; [done|].
  rewrite Nat.iter_succ, IH. unfold unlockBodyScroll. simpl.
  destruct (Z.eqb_spec (- Z.of_nat k - 1) 0); [lia|].
  f_equal. lia.
Qed.

Lemma iter_lock_negative (j : nat) (c : Z) (s0 : string) :
  c + Z.of_nat j ≤ 0 →
  Nat.iter j lockBodyScroll (mkState c None s0)
  = mkState (c + Z.of_nat j) None s0.
Proof.
  induction j as [|j IH]; intros Hle.
  - simpl. f_equal. lia.
  - rewrite Nat.iter_succ, IH by lia. unfold lockBodyScroll. simpl.
    destruct (Z.eqb_spec (c + Z.of_nat j) 0); [lia|]. simpl.
    f_equal. lia.
Qed.

(** X2. An unlock without a lock is not refused: [k] surplus unlocks drive
    the counter to [-k] without touching the body, and the next [k] locks
    are swallowed, none of them hides the body's overflow; after them the
    state is the initial one again. *)
Theorem surplus_unlocks_swallow_locks (k j : nat) (s0 : string) :
  (j ≤ k)%nat →
  let s := Nat.iter k unlockBodyScroll (initial s0) in
  scrollLockCounter s = - Z.of_nat k
  ∧ bodyOverflow s = s0
  ∧ bodyOverflow (Nat.iter j lockBodyScroll s) = s0
  ∧ originalBodyStyle (Nat.iter j lockBodyScroll s) = None
  ∧ Nat.iter k lockBodyScroll s = initial s0.
Proof.
  intros Hj s. unfold s. rewrite iter_unlock_initial.
  rewrite !iter_lock_negative by lia. simpl.
  repeat split. unfold initial. f_equal. lia.
Qed.

Lemma surplus_unlocks_swallow_locks_witness :
  (1 ≤ 2)%nat
  ∧ bodyOverflow
      (Nat.iter 1 lockBodyScroll (Nat.iter 2 unlockBodyScroll (initial "auto")))
    = "auto".
Proof.
  split; [lia|].
  apply (surplus_unlocks_swallow_locks 2 1 "auto"). lia.
Defined.

End ScrollLockMore.

Section FocusableMore.
Import Dom Modal MorePages.

Lemma getFocusable_In (container : Node) (e : Element) :
  e ∈ getFocusableElements container ↔
  e ∈ descendants container
  ∧ matchesList focusableSelectors e = true
  ∧ isHTMLElement e = true
  ∧ display e ≠ "none"
  ∧ visibility e ≠ "hidden"
  ∧ hasAttribute "aria-hidden" e = false.
Proof.
  unfold getFocusableElements, querySelectorAll.
  rewrite !list_elem_of_In, !filter_In.
  destruct (isHTMLElement e); [|intuition congruence].
  rewrite !andb_true_iff, !negb_true_iff.
  destruct (String.eqb_spec (display e) "none"),
           (String.eqb_spec (visibility e) "hidden");
    intuition congruence.
Qed.

(** X4. The [disabled] attribute keeps a button, input, textarea, select
    or summary out of the list only as long as nothing else qualifies it:
    a disabled control is listed exactly when it is a visible descendant
    that has a [tabindex] other than ["-1"] or a [contenteditable] other
    than ["false"]. *)
Theorem disabled_control_listed_only_by_tabindex
    (container : Node) (e : Element) :
  tagName e ∈ ["button"; "input"; "textarea"; "select"; "summary"] →
  hasAttribute "disabled" e = true →
  (e ∈ getFocusableElements container ↔
   e ∈ descendants container
   ∧ isHTMLElement e = true
   ∧ display e ≠ "none"
   ∧ visibility e ≠ "hidden"
   ∧ hasAttribute "aria-hidden" e = false
   ∧ ((∃ v, attrs e !! "tabindex" = Some v ∧ v ≠ "-1")
      ∨ (∃ v, attrs e !! "contenteditable" = Some v ∧ v ≠ "false"))).
Proof.
  intros Htag Hdis. rewrite getFocusable_In.
  assert (matchesList focusableSelectors e = true ↔
          (∃ v, attrs e !! "tabindex" = Some v ∧ v ≠ "-1")
          ∨ (∃ v, attrs e !! "contenteditable" = Some v ∧ v ≠ "false"))
    as Hsel.
  { unfold matchesList, focusableSelectors, matchesCompound. simpl.
    rewrite Hdis. unfold hasAttribute.
    assert (∀ t, String.eqb (tagName e) t && negb true = false) as Hoff
      by (intros t; apply andb_false_r).
    rewrite !Hoff. simpl.
    assert (String.eqb (tagName e) "details" = false
            ∧ String.eqb (tagName e) "a" = false
            ∧ String.eqb (tagName e) "audio" = false
            ∧ String.eqb (tagName e) "video" = false) as (-> & -> & -> & ->).
    { repeat (apply elem_of_cons in Htag as [->|Htag]; [done|]).
      by apply elem_of_nil in Htag. }
    simpl.
    destruct (attrs e !! "contenteditable") as [ce|] eqn:Ece;
      destruct (attrs e !! "tabindex") as [ti|] eqn:Eti; simpl;
      rewrite ?andb_true_r, ?orb_false_r, ?orb_true_iff, ?negb_true_iff;
      try destruct (String.eqb_spec ce "false");
      try destruct (String.eqb_spec ti "-1"); subst;
      split; try done; try (intros [[v [[= <-] ?]]|[v [[= <-] ?]]]; done);
      try (intros _; by eauto); try (intros [?|?]; by eauto);
      try (intros [[v [? ?]]|[v [? ?]]]; done). }
  rewrite Hsel. tauto.
Qed.

Lemma disabled_control_listed_only_by_tabindex_witness :
  tagName disabledTabbable ∈ ["button"; "input"; "textarea"; "select"; "summary"]
  ∧ hasAttribute "disabled" disabledTabbable = true
  ∧ getFocusableElements dialogWithDisabled = [disabledTabbable; okButton]
  ∧ ((∃ v, attrs disabledTabbable !! "tabindex" = Some v ∧ v ≠ "-1")
     ∨ (∃ v, attrs disabledTabbable !! "contenteditable" = Some v
             ∧ v ≠ "false")).
Proof.
  assert (tagName disabledTabbable
          ∈ ["button"; "input"; "textarea"; "select"; "summary"]) as Htag
    by left.
  assert (getFocusableElements dialogWithDisabled
          = [disabledTabbable; okButton]) as Hlist
    by (vm_compute; reflexivity).
  split; [exact Htag|]. split; [reflexivity|]. split; [exact Hlist|].
  apply (disabled_control_listed_only_by_tabindex dialogWithDisabled
           disabledTabbable Htag eq_refl).
  rewrite Hlist. left.
Defined.

End FocusableMore.

Section ModalMore.
Import Dom Modal MorePages.

#[local] Hint Rewrite focus_log focus_activeElement focus_modalRef
  focus_backdropRef focus_previous focus_focusableElements focus_first
  focus_last focus_isVisible focus_keydownListeners focus_focusTimeout
  focus_page focus_scroll : focus.

(** Witness for [handleKeyDown_tab_attached]: Tab on the last of two
    buttons in a modal whose [modalRef] holds the dialog. *)
Lemma handleKeyDown_tab_attached_witness :
  let p := onlyOpen true in
  let s := step p (opened false p dialogWithButtons (Some trigger))
                (FocusMoved (Some cancelButton)) in
  isOpen p = true ∧ key tab = "Tab" ∧ modalRef s = Some dialogWithButtons
  ∧ focusableElements (handleKeyDown p tab s)
    = getFocusableElements dialogWithButtons
  ∧ callsOf s (handleKeyDown p tab s) = [PreventDefault; Focus okButton]
  ∧ activeElement (handleKeyDown p tab s) = Some okButton.
Proof.
  split; [reflexivity|]. split; [reflexivity|]. split; [reflexivity|].
  pose proof (handleKeyDown_tab_attached (onlyOpen true) tab
                (step (onlyOpen true)
                      (opened false (onlyOpen true) dialogWithButtons
                              (Some trigger))
                      (FocusMoved (Some cancelButton)))
                dialogWithButtons eq_refl eq_refl eq_refl)
    as (Hlist & _ & Hwrap & _).
  split; [exact Hlist|].
  exact (Hwrap okButton eq_refl eq_refl eq_refl).
Defined.

(** Witness for [focusTimerFires_attached]: the timer of a modal with two
    buttons and no initial-focus target. *)
Lemma focusTimerFires_attached_witness :
  let p := onlyOpen true in
  let s := mounted false p dialogWithButtons (Some trigger) in
  let s' := mounted false p dialogWithDisabled (Some trigger) in
  focusTimeout s = true ∧ modalRef s = Some dialogWithButtons
  ∧ callsOf s (focusTimerFires p s) = [Focus okButton]
  ∧ activeElement (focusTimerFires p s) = Some okButton
  ∧ focusTimeout s' = true ∧ modalRef s' = Some dialogWithDisabled
  ∧ callsOf s' (focusTimerFires p s') = [Focus disabledTabbable]
  ∧ activeElement (focusTimerFires p s') = Some trigger.
Proof.
  split; [reflexivity|]. split; [reflexivity|].
  pose proof (focusTimerFires_attached (onlyOpen true)
                (mounted false (onlyOpen true) dialogWithButtons (Some trigger))
                dialogWithButtons eq_refl eq_refl) as (Hcalls & Hactive & _).
  pose proof (focusTimerFires_attached (onlyOpen true)
                (mounted false (onlyOpen true) dialogWithDisabled (Some trigger))
                dialogWithDisabled eq_refl eq_refl) as (Hcalls' & Hactive' & _).
  split; [exact Hcalls|]. split; [exact Hactive|].
  split; [reflexivity|]. split; [reflexivity|].
  split; [exact Hcalls'|exact Hactive'].
Defined.

(** *** What the key handler leaves alone *)

Lemma focusIfAny_frame (e : option Element) (s : State) :
  modalRef (focusIfAny e s) = modalRef s
  ∧ backdropRef (focusIfAny e s) = backdropRef s
  ∧ keydownListeners (focusIfAny e s) = keydownListeners s
  ∧ scroll (focusIfAny e s) = scroll s
  ∧ isVisible (focusIfAny e s) = isVisible s
  ∧ focusTimeout (focusIfAny e s) = focusTimeout s.
Proof. destruct e; simpl; by autorewrite with focus. Qed.

Lemma update_frame (s : State) :
  backdropRef (updateFocusableElements s) = backdropRef s
  ∧ keydownListeners (updateFocusableElements s) = keydownListeners s
  ∧ scroll (updateFocusableElements s) = scroll s
  ∧ isVisible (updateFocusableElements s) = isVisible s
  ∧ focusTimeout (updateFocusableElements s) = focusTimeout s.
Proof. unfold updateFocusableElements. by destruct (modalRef s). Qed.

Lemma handleKeyDown_cases (p : ModalProps) (event : KeyboardEvent) (s : State) :
  let s1 := updateFocusableElements s in
  handleKeyDown p event s = s
  ∨ (key event = "Escape"
     ∧ handleKeyDown p event s = emit OnClose (emit PreventDefault s))
  ∨ (key event = "Tab"
     ∧ (handleKeyDown p event s = s1
        ∨ handleKeyDown p event s = emit PreventDefault s1
        ∨ handleKeyDown p event s
          = focusIfAny (lastFocusableElement s1) (emit PreventDefault s1)
        ∨ handleKeyDown p event s
          = focusIfAny (firstFocusableElement s1) (emit PreventDefault s1))).
Proof.
  intros s1. unfold handleKeyDown. fold s1.
  destruct (isOpen p); simpl; [|by left].
  destruct (String.eqb_spec (key event) "Escape") as [HE|HE]; simpl.
  - destruct (closeOnEscapeOf p); [right; left; done|].
    rewrite HE. simpl. by left.
  - destruct (String.eqb_spec (key event) "Tab") as [HT|HT]; [|by left].
    right. right. split; [done|].
    repeat match goal with
           | |- context [if ?b then _ else _] => destruct b
           end; tauto.
Qed.

Local Ltac in_calls :=
  intros;
  repeat match goal with
         | H : _ ∈ [] |- _ => by apply elem_of_nil in H
         | H : _ ∈ _ :: _ |- _ =>
             apply elem_of_cons in H as [H|H];
             [try discriminate H; try done|]
         end.

Lemma handleKeyDown_calls (p : ModalProps) (event : KeyboardEvent) (s : State) :
  let s1 := updateFocusableElements s in
  let calls := callsOf s (handleKeyDown p event s) in
  calls = []
  ∨ (key event = "Escape" ∧ calls = [PreventDefault; OnClose])
  ∨ (key event = "Tab"
     ∧ (calls = [PreventDefault]
        ∨ ∃ e, (firstFocusableElement s1 = Some e
                ∨ lastFocusableElement s1 = Some e)
               ∧ calls = [PreventDefault; Focus e])).
Proof.
  intros s1 calls. unfold calls, s1. pose proof (update_log s) as Hlog.
  destruct (handleKeyDown_cases p event s)
    as [H|[[HE H]|[HT [H|[H|[H|H]]]]]]; rewrite H; clear H.
  - left. apply callsOf_same.
  - right. left. split; [done|]. apply callsOf_app. simpl.
    by rewrite <- app_assoc.
  - left. apply callsOf_app. by rewrite app_nil_r.
  - right. right. split; [done|]. left. apply callsOf_app. simpl.
    by rewrite Hlog.
  - right. right. split; [done|].
    destruct (lastFocusableElement (updateFocusableElements s)) as [e|];
      simpl; [right; exists e; split; [by right|]|left];
      apply callsOf_app; rewrite ?focus_log; simpl;
      rewrite Hlog, <- ?app_assoc; done.
  - right. right. split; [done|].
    destruct (firstFocusableElement (updateFocusableElements s)) as [e|];
      simpl; [right; exists e; split; [by left|]|left];
      apply callsOf_app; rewrite ?focus_log; simpl;
      rewrite Hlog, <- ?app_assoc; done.
Qed.

Lemma handleKeyDown_fields (p : ModalProps) (event : KeyboardEvent) (s : State) :
  let s' := handleKeyDown p event s in
  backdropRef s' = backdropRef s
  ∧ keydownListeners s' = keydownListeners s
  ∧ scroll s' = scroll s
  ∧ isVisible s' = isVisible s
  ∧ focusTimeout s' = focusTimeout s.
Proof.
  intros s'. unfold s'.
  pose proof (update_frame s) as (Hb & Hk & Hsc & Hv & Ht).
  destruct (handleKeyDown_cases p event s)
    as [H|[[HE H]|[HT [H|[H|[H|H]]]]]]; rewrite H; clear H; try done.
  - destruct (focusIfAny_frame
                (lastFocusableElement (updateFocusableElements s))
                (emit PreventDefault (updateFocusableElements s)))
      as (_ & -> & -> & -> & -> & ->). done.
  - destruct (focusIfAny_frame
                (firstFocusableElement (updateFocusableElements s))
                (emit PreventDefault (updateFocusableElements s)))
      as (_ & -> & -> & -> & -> & ->). done.
Qed.

(** X8. The key handler acts on two keys only.  With the modal closed, or
    on any key other than Escape and Tab, it changes nothing and makes no
    call.  Whatever the key, it leaves the backdrop ref, the captured
    previous element, the listener count, the scroll lock, the visibility
    flag and the pending timer as they were; it calls [onClose] only on
    Escape and [focus] only on Tab. *)
Theorem handleKeyDown_frame
    (p : ModalProps) (event : KeyboardEvent) (s : State) :
  let s' := handleKeyDown p event s in
  (isOpen p = false ∨ (key event ≠ "Escape" ∧ key event ≠ "Tab") → s' = s)
  ∧ backdropRef s' = backdropRef s
  ∧ previousActiveElement s' = previousActiveElement s
  ∧ keydownListeners s' = keydownListeners s
  ∧ scroll s' = scroll s
  ∧ isVisible s' = isVisible s
  ∧ focusTimeout s' = focusTimeout s
  ∧ (OnClose ∈ callsOf s s' → key event = "Escape")
  ∧ (∀ e, Focus e ∈ callsOf s s' → key event = "Tab").
Proof.
  intros s'. split.
  { unfold s', handleKeyDown. intros [->|[HE HT]]; [done|].
    destruct (isOpen p); simpl; [|done].
    destruct (String.eqb_spec (key event) "Escape"); [done|]. simpl.
    by destruct (String.eqb_spec (key event) "Tab"). }
  destruct (handleKeyDown_fields p event s) as (Hb & Hk & Hsc & Hv & Ht).
  pose proof (step_previous p s (KeyDown event)) as Hp. simpl in Hp.
  split; [done|]. split; [done|]. split; [done|]. split; [done|].
  split; [done|]. split; [done|].
  destruct (handleKeyDown_calls p event s)
    as [Hc|[[HE Hc]|[HT [Hc|[e' [_ Hc]]]]]]; fold s' in Hc; rewrite Hc;
    split; try done; in_calls.
Qed.

(** X9. The focus trap never sends focus out of the dialog: with
    [modalRef] holding the dialog, any element the key handler focuses is
    one of the dialog's focusable descendants as they are at that moment. *)
Theorem handleKeyDown_focuses_inside_the_dialog
    (p : ModalProps) (event : KeyboardEvent) (s : State) (dialog : Node)
    (e : Element) :
  modalRef s = Some dialog →
  Focus e ∈ callsOf s (handleKeyDown p event s) →
  e ∈ getFocusableElements dialog ∧ e ∈ descendants dialog.
Proof.
  intros Href Hin.
  assert (e ∈ getFocusableElements dialog) as Hl.
  { destruct (update_attached s dialog Href) as (_ & Hfirst & Hlast).
    destruct (handleKeyDown_calls p event s)
      as [Hc|[[_ Hc]|[_ [Hc|[e' [Hends Hc]]]]]];
      rewrite Hc in Hin; in_calls.
    injection Hin as ->. rewrite Hfirst, Hlast in Hends.
    destruct Hends as [H|H];
      [by apply head_Some_elem_of|by apply last_Some_elem_of]. }
  split; [done|]. by apply getFocusable_In in Hl as [? _].
Qed.

Lemma handleKeyDown_focuses_inside_the_dialog_witness :
  modalRef onLastButton = Some dialogWithButtons
  ∧ Focus okButton ∈ callsOf onLastButton
                             (handleKeyDown (onlyOpen true) tab onLastButton)
  ∧ okButton ∈ descendants dialogWithButtons.
Proof.
  assert (Focus okButton
          ∈ callsOf onLastButton
                    (handleKeyDown (onlyOpen true) tab onLastButton)) as Hin.
  { change (Focus okButton ∈ [PreventDefault; Focus okButton]).
    right. left. }
  split; [reflexivity|]. split; [exact Hin|].
  apply (handleKeyDown_focuses_inside_the_dialog (onlyOpen true) tab
           onLastButton dialogWithButtons okButton eq_refl Hin).
Defined.

(** X10. An explicit initial-focus target is the one focused when the
    timer fires, whatever the dialog contains and whether or not [modalRef]
    holds it: exactly one [focus] call, on the target.  The active element
    becomes the target when the page lets it take focus, and stays as it
    was when it does not (a target that is not in the document, say). *)
Theorem initial_focus_target_wins
    (p : ModalProps) (s : State) (target : Element) :
  focusTimeout s = true →
  current (initialFocusRef p) = Some target →
  let s' := focusTimerFires p s in
  callsOf s s' = [Focus target]
  ∧ activeElement s'
    = (if takesFocus (page s) target then Some target else activeElement s)
  ∧ (attached target (document (page s)) = false →
     activeElement s' = activeElement s)
  ∧ isVisible s' = true.
Proof.
  intros Hpending Htarget s'. unfold s', focusTimerFires.
  rewrite Hpending, Htarget. cbn [negb].
  pose proof (update_log (set_isVisible true (set_focusTimeout false s)))
    as Hlog.
  pose proof (update_page (set_isVisible true (set_focusTimeout false s)))
    as Hpage.
  pose proof (update_activeElement
                (set_isVisible true (set_focusTimeout false s))) as Hact.
  destruct (update_frame (set_isVisible true (set_focusTimeout false s)))
    as (_ & _ & _ & Hv & _).
  set (s1 := updateFocusableElements _) in *.
  autorewrite with focus. rewrite Hpage, Hact, Hv. simpl.
  split; [apply callsOf_app; by rewrite focus_log, Hlog|].
  split; [done|]. split; [|done].
  unfold takesFocus. by intros ->.
Qed.

Lemma initial_focus_target_wins_witness :
  let p := withInitialFocus cancelButton in
  let s := mounted true p dialogWithButtons (Some trigger) in
  let outside := mounted true (withInitialFocus searchField) dialogWithButtons
                         (Some trigger) in
  focusTimeout s = true ∧ current (initialFocusRef p) = Some cancelButton
  ∧ callsOf s (focusTimerFires p s) = [Focus cancelButton]
  ∧ activeElement (focusTimerFires p s) = Some cancelButton
  ∧ activeElement (focusTimerFires (withInitialFocus searchField) outside)
    = Some trigger.
Proof.
  split; [reflexivity|]. split; [reflexivity|].
  pose proof (initial_focus_target_wins (withInitialFocus cancelButton)
                (mounted true (withInitialFocus cancelButton) dialogWithButtons
                         (Some trigger))
                cancelButton eq_refl eq_refl) as (Hcalls & Hactive & _).
  split; [exact Hcalls|]. split; [exact Hactive|]. reflexivity.
Defined.

(** X11. The focus timer acts at most once and never after the cleanup:
    once it has fired, or once the cleanup has cleared it, a further firing
    changes nothing and makes no call. *)
Theorem focus_timer_fires_once_and_not_after_cleanup
    (p q : ModalProps) (s : State) :
  focusTimerFires q (focusTimerFires p s) = focusTimerFires p s
  ∧ focusTimerFires q (cleanup p s) = cleanup p s
  ∧ focusTimerFires q (cleanup p (effect p s)) = cleanup p (effect p s).
Proof.
  assert (∀ x, focusTimeout x = false → focusTimerFires q x = x) as Hoff.
  { intros x Hx. unfold focusTimerFires. by rewrite Hx. }
  assert (∀ x, focusTimeout (cleanup p x) = false) as Hclean.
  { intros x. unfold cleanup.
    destruct (current (finalFocusRef p)); [by autorewrite with focus|].
    simpl. destruct (previousActiveElement x) as [e|]; [|done].
    destruct (isHTMLElement e); [by autorewrite with focus|done]. }
  split; [|split; apply Hoff, Hclean].
  apply Hoff. unfold focusTimerFires.
  destruct (focusTimeout s) eqn:Hs; simpl; [|done].
  destruct (update_frame (set_isVisible true (set_focusTimeout false s)))
    as (_ & _ & _ & _ & Ht).
  destruct (current (initialFocusRef p)); [by rewrite focus_focusTimeout|].
  destruct (firstFocusableElement _); [by rewrite focus_focusTimeout|].
  destruct (focusIfAny_frame
              (elementOf <$> modalRef
                 (updateFocusableElements
                    (set_isVisible true (set_focusTimeout false s))))
              (updateFocusableElements
                 (set_isVisible true (set_focusTimeout false s))))
    as (_ & _ & _ & _ & _ & ->). done.
Qed.

Lemma step_fields (p : ModalProps) (s : State) (e : Event) :
  keydownListeners (step p s e) = keydownListeners s
  ∧ scroll (step p s e) = scroll s.
Proof.
  destruct e as [event|target| |dialog|pg|to]; simpl.
  - by destruct (handleKeyDown_fields p event s) as (_ & -> & -> & _).
  - unfold handleBackdropClick. by destruct (_ && _).
  - unfold focusTimerFires. destruct (negb (focusTimeout s)); [done|].
    destruct (update_frame (set_isVisible true (set_focusTimeout false s)))
      as (_ & Hk & Hsc & _).
    destruct (current (initialFocusRef p)); [by autorewrite with focus|].
    destruct (firstFocusableElement _); [by autorewrite with focus|].
    by destruct (focusIfAny_frame
                   (elementOf <$> modalRef
                      (updateFocusableElements
                         (set_isVisible true (set_focusTimeout false s))))
                   (updateFocusableElements
                      (set_isVisible true (set_focusTimeout false s))))
      as (_ & _ & -> & -> & _).
  - by destruct (modalRef s).
  - done.
  - done.
Qed.

Lemma run_fields (p : ModalProps) (evs : list Event) (s : State) :
  keydownListeners (run p s evs) = keydownListeners s
  ∧ scroll (run p s evs) = scroll s.
Proof.
  revert s. induction evs as [|e evs IH]; intros s; [done|].
  change (run p s (e :: evs)) with (run p (step p s e) evs).
  destruct (IH (step p s e)) as [-> ->]. apply step_fields.
Qed.

(** X12. Opening and closing are symmetric.  Whatever happens while the
    modal is open, after the cleanup the number of registered key
    listeners and the scroll-lock counter are what they were before the
    effect, no focus timer is pending and the visibility flag is off; and
    the whole scroll-lock state is back to what it was, unless it started
    at counter zero with a stale saved value. *)
Theorem effect_then_cleanup_is_balanced
    (p : ModalProps) (s : State) (evs : list Event) :
  isOpen p = true →
  let s' := cleanup p (run p (effect p s) evs) in
  keydownListeners s' = keydownListeners s
  ∧ ScrollLock.scrollLockCounter (scroll s')
    = ScrollLock.scrollLockCounter (scroll s)
  ∧ focusTimeout s' = false
  ∧ isVisible s' = false
  ∧ ((ScrollLock.scrollLockCounter (scroll s) = 0 →
      ScrollLock.originalBodyStyle (scroll s) = None) →
     scroll s' = scroll s).
Proof.
  intros Hopen s'.
  destruct (run_fields p evs (effect p s)) as [Hk Hsc].
  assert (keydownListeners (effect p s) = S (keydownListeners s)
          ∧ scroll (effect p s) = ScrollLock.lockBodyScroll (scroll s))
    as [Hk0 Hsc0] by (unfold effect; by rewrite Hopen).
  rewrite Hk0 in Hk. rewrite Hsc0 in Hsc.
  assert (keydownListeners s' = keydownListeners s
          ∧ scroll s' = ScrollLock.unlockBodyScroll
                          (ScrollLock.lockBodyScroll (scroll s))
          ∧ focusTimeout s' = false ∧ isVisible s' = false)
    as (Hk' & Hsc' & Ht' & Hv').
  { unfold s', cleanup. rewrite Hk, Hsc.
    destruct (current (finalFocusRef p)); [by autorewrite with focus|]. simpl.
    destruct (previousActiveElement _) as [e|]; [|done].
    destruct (isHTMLElement e); [by autorewrite with focus|done]. }
  split; [done|]. rewrite Hsc'.
  destruct (scroll s) as [c o b].
  unfold ScrollLock.lockBodyScroll, ScrollLock.unlockBodyScroll. simpl.
  destruct (Z.eqb_spec c 0) as [->|Hc]; simpl.
  - split; [done|]. split; [done|]. split; [done|].
    intros Hnone. by rewrite Hnone.
  - rewrite Z.add_simpl_r. destruct (Z.eqb_spec c 0); [done|]. by simpl.
Qed.

Lemma effect_then_cleanup_is_balanced_witness :
  let p := onlyOpen true in
  let s := commitOpen false backdrop dialogWithButtons
             (initialState (Some trigger) (ScrollLock.initial "auto")) in
  isOpen p = true
  ∧ scroll (cleanup p (run p (effect p s) [TimerFires; KeyDown tab]))
    = ScrollLock.initial "auto".
Proof.
  split; [reflexivity|].
  apply (effect_then_cleanup_is_balanced (onlyOpen true)
           (commitOpen false backdrop dialogWithButtons
              (initialState (Some trigger) (ScrollLock.initial "auto")))
           [TimerFires; KeyDown tab]); reflexivity.
Defined.

End ModalMore.

Section AlertMore.
Import React Types Alert MoreAlerts.

Lemma captured_step (captured : option nat) (s : State)
    (pe : AlertProps * Event) :
  captured_inv captured s → captured_inv captured (step s pe).
Proof.
  intros (Hex & Hel & Hpend & Hlog).
  destruct s as [v e el pend lg]. simpl in *. subst e.
  assert (captured_inv captured (render (fst pe) (mkState v true el pend lg)))
    as Hr.
  { unfold render. simpl. destruct v; simpl; by repeat split. }
  unfold step. destruct Hr as (Hex' & Hel' & Hpend' & Hlog').
  destruct (render (fst pe) (mkState v true el pend lg)) as [v' e' el' pend' lg'].
  simpl in *. subst e'. clear Hel Hpend Hlog.
  assert (∀ c l, el' = Some c → (∀ h, OnDismiss h ∈ l → captured = Some h) →
            captured_inv captured
              (handleDismiss c (mkState v' true el' pend' l))) as Hdismiss.
  { intros c l Hc Hl. unfold handleDismiss. simpl.
    destruct (negb (dismissibleOf (closedProps c)) || closedIsExiting c);
      simpl; [by repeat split|].
    repeat split; try done.
    intros c' [Hin|Hin]%elem_of_app; [by apply Hpend'|].
    apply list_elem_of_singleton in Hin as ->. by apply Hel'. }
  destruct (snd pe) as [|key| |]; simpl.
  - unfold onElement. simpl. destruct el' as [c|]; [|by repeat split].
    by apply Hdismiss.
  - unfold onElement. simpl. destruct el' as [c|]; [|by repeat split].
    unfold handleKeyDown. simpl.
    destruct (_ && _); [|by repeat split].
    apply Hdismiss; [done|].
    intros h [Hin|Hin]%elem_of_app; [by apply Hlog'|].
    apply list_elem_of_singleton in Hin. discriminate Hin.
  - unfold timeoutFires. simpl. destruct pend' as [|c pend']; simpl;
      [by repeat split|].
    repeat split; try done.
    + intros c' Hc'. apply Hpend'. by right.
    + intros h [Hin|Hin]%elem_of_app; [by apply Hlog'|].
      assert (c = captured) as <- by (apply Hpend'; left).
      destruct c as [h'|]; [|by apply elem_of_nil in Hin].
      apply list_elem_of_singleton in Hin. by injection Hin as ->.
  - unfold exitAnimationEnds. simpl. by repeat split.
Qed.

(** X14. The callback that a dismissal ends up calling is the one the
    alert had when the dismissal was requested: whatever props later
    renders bring and whatever else happens, every [onDismiss] call made
    is a call of that callback, and there is none if there was no
    callback then. *)
Theorem dismissal_calls_the_captured_callback
    (p : AlertProps) (evs : list (AlertProps * Event)) :
  dismissibleOf p = true →
  let s := run initial ((p, RequestDismiss) :: evs) in
  (∀ h, OnDismiss h ∈ log s → onDismiss p = Some h)
  ∧ (onDismiss p = None → dismissCalls s = 0%nat).
Proof.
  intros Hd s.
  assert (captured_inv (onDismiss p) (step initial (p, RequestDismiss))) as H0.
  { unfold step, render, onElement, handleDismiss, initial. simpl.
    rewrite Hd. simpl. repeat split.
    - by intros c [= <-].
    - intros c Hc. by apply list_elem_of_singleton in Hc.
    - intros h Hh. by apply elem_of_nil in Hh. }
  assert (captured_inv (onDismiss p) s) as (_ & _ & _ & Hlog).
  { unfold s. change (run initial ((p, RequestDismiss) :: evs))
      with (run (step initial (p, RequestDismiss)) evs).
    clear Hd. revert H0. generalize (step initial (p, RequestDismiss)).
    induction evs as [|pe evs IH]; intros s0 Hs0; [done|].
    apply (IH (step s0 pe)). by apply captured_step. }
  split; [exact Hlog|]. intros Hnone. unfold dismissCalls.
  rewrite Hnone in Hlog. clear -Hlog.
  induction (log s) as [|e l IH]; [done|]. simpl.
  destruct e as [|h]; simpl.
  - apply IH. intros h Hh. apply Hlog. by right.
  - exfalso. by specialize (Hlog h ltac:(left)).
Qed.

Lemma dismissal_calls_the_captured_callback_witness :
  let p := dismissibleAlert success (Some 4%nat) in
  let later := dismissibleAlert success (Some 9%nat) in
  let s := run initial [(p, RequestDismiss); (later, RequestDismiss);
                        (later, TimeoutFires); (later, TimeoutFires)] in
  dismissibleOf p = true ∧ log s = [OnDismiss 4%nat; OnDismiss 4%nat]
  ∧ (∀ h, OnDismiss h ∈ log s → onDismiss p = Some h).
Proof.
  split; [reflexivity|]. split; [reflexivity|].
  apply (dismissal_calls_the_captured_callback
           (dismissibleAlert success (Some 4%nat))
           [(dismissibleAlert success (Some 9%nat), RequestDismiss);
            (dismissibleAlert success (Some 9%nat), TimeoutFires);
            (dismissibleAlert success (Some 9%nat), TimeoutFires)]).
  reflexivity.
Defined.

(** *** The phases of an Alert *)

Lemma render_alert_inv (p : AlertProps) (s : State) :
  alert_inv s → alert_inv (render p s).
Proof.
  destruct s as [v e el pend lg]. unfold alert_inv, render. simpl.
  intros Hinv. destruct v; simpl; [destruct e; simpl; [exact Hinv|]|];
    destruct Hinv as (H1 & H2 & H3);
    (split; [done|]); (split; [done|]); intros c Hc; by simplify_eq.
Qed.

Lemma handleDismiss_alert_inv (c : Closure) (s : State) :
  element s = Some c → alert_inv s → alert_inv (handleDismiss c s).
Proof.
  destruct s as [v e el pend lg]. unfold alert_inv, handleDismiss. simpl.
  intros -> (H1 & H2 & H3).
  destruct (dismissibleOf (closedProps c)) eqn:Hd; simpl; [|done].
  destruct (closedIsExiting c) eqn:Hc; simpl; [done|].
  split; [done|]. split; [intros _ _; by destruct pend|].
  intros c' Hc'. by simplify_eq.
Qed.

Lemma step_alert_inv (s : State) (pe : AlertProps * Event) :
  alert_inv s → alert_inv (step s pe).
Proof.
  intros Hs. pose proof (render_alert_inv (fst pe) s Hs) as Hr.
  unfold step. destruct (render (fst pe) s) as [v e el pend lg].
  destruct (snd pe) as [|key| |]; unfold onElement; simpl.
  - destruct el as [c|]; [|done]. by apply handleDismiss_alert_inv.
  - destruct el as [c|]; [|done]. unfold handleKeyDown. simpl.
    destruct (_ && _); [|done]. by apply handleDismiss_alert_inv.
  - unfold timeoutFires. simpl. destruct pend as [|c pend]; [done|].
    destruct Hr as (H1 & H2 & H3). simpl in *.
    repeat split; try done; intros; try (by apply H1); by apply H3.
  - unfold exitAnimationEnds. simpl. destruct e; [|done].
    destruct Hr as (H1 & H2 & H3). by repeat split.
Qed.

Lemma run_alert_inv (evs : list (AlertProps * Event)) (s : State) :
  alert_inv s → alert_inv (run s evs).
Proof.
  revert s. induction evs as [|pe evs IH]; intros s Hs; [done|].
  apply (IH (step s pe)). by apply step_alert_inv.
Qed.

Lemma initial_alert_inv : alert_inv initial.
Proof. by repeat split. Qed.

Lemma step_rank (s : State) (pe : AlertProps * Event) :
  alert_inv s →
  (rank (phase s) ≤ rank (phase (step s pe)) ≤ S (rank (phase s)))%nat.
Proof.
  destruct s as [v e el pend lg]. intros (H1 & H2 & H3). simpl in *.
  unfold step, render, onElement. simpl.
  destruct pe as [p [|key| |]]; simpl;
    unfold handleKeyDown, handleDismiss, timeoutFires, exitAnimationEnds,
      phase;
    destruct v, e, el as [[cp ce]|]; simpl;
    try destruct (dismissibleOf _); simpl; try destruct ce; simpl;
    try destruct (String.eqb key "Enter" || String.eqb key " "); simpl;
    try destruct pend; simpl; try lia;
    by specialize (H1 ltac:(done)).
Qed.

Lemma run_rank (evs : list (AlertProps * Event)) (s : State) :
  alert_inv s → (rank (phase s) ≤ rank (phase (run s evs)))%nat.
Proof.
  revert s. induction evs as [|pe evs IH]; intros s Hs; [done|].
  change (run s (pe :: evs)) with (run (step s pe) evs).
  pose proof (step_rank s pe Hs). pose proof (step_alert_inv s pe Hs) as Hs'.
  specialize (IH _ Hs'). lia.
Qed.

(** X28. After any events on an Alert, whatever comes next never moves it
    back: its phase only stays or advances along visible, exiting, removed,
    one phase per event at most.  Once removed it stays removed, renders
    nothing, and a click or key schedules nothing.  As long as the
    [dismissible] prop is not [true], no event makes a visible alert leave
    that phase or call anything.  With [dismissible] on, a click on a
    visible alert starts the exit and schedules one timeout with that
    render's callback.  While the alert is exiting, every click that
    reaches the element still in the DOM schedules one more timeout, with
    the callback that element captured; and the first timeout removes the
    alert. *)
Theorem alert_phases_only_advance (evs1 evs2 : list (AlertProps * Event)) :
  let s1 := run initial evs1 in
  let s2 := run s1 evs2 in
  (rank (phase s1) ≤ rank (phase s2))%nat
  ∧ (∀ pe, (rank (phase s1) ≤ rank (phase (step s1 pe))
            ≤ S (rank (phase s1)))%nat)
  ∧ (phase s1 = removed →
       phase s2 = removed
       ∧ (∀ styles reduced p, Alert styles reduced p s1 = RNull)
       ∧ (∀ p ev, ev ≠ TimeoutFires →
            pendingTimeouts (step s1 (p, ev)) = pendingTimeouts s1
            ∧ log (step s1 (p, ev)) = log s1))
  ∧ (∀ p ev, phase s1 = visible → dismissible p ≠ Some true →
       phase (step s1 (p, ev)) = visible
       ∧ pendingTimeouts (step s1 (p, ev)) = []
       ∧ log (step s1 (p, ev)) = log s1)
  ∧ (∀ p, phase s1 = visible → dismissible p = Some true →
       phase (step s1 (p, RequestDismiss)) = exiting
       ∧ pendingTimeouts (step s1 (p, RequestDismiss)) = [onDismiss p]
       ∧ log (step s1 (p, RequestDismiss)) = log s1)
  ∧ (∀ p c, phase s1 = exiting → element s1 = Some c →
       pendingTimeouts (step s1 (p, RequestDismiss))
       = pendingTimeouts s1 ++ [onDismiss (closedProps c)])
  ∧ (∀ p, phase s1 = exiting → phase (step s1 (p, TimeoutFires)) = removed).
Proof.
  intros s1 s2.
  assert (alert_inv s1) as Hinv by apply run_alert_inv, initial_alert_inv.
  pose proof (run_rank evs2 s1 Hinv) as Hmono. fold s2 in Hmono.
  split; [done|]. split; [intros pe; by apply step_rank|].
  clearbody s1 s2. destruct s1 as [v e el pend lg].
  destruct Hinv as (H1 & H2 & H3). simpl in *.
  unfold step, render, onElement, phase in *. simpl in *.
  split.
  { intros Hrem. assert (v = false) as -> by (by destruct v, e).
    split; [|split; [done|]].
    - simpl in Hmono. destruct (isVisible s2); [|done].
      destruct (isExiting s2); simpl in Hmono; lia.
    - intros p ev Hev. destruct ev; simpl; try done;
        unfold exitAnimationEnds; simpl; by destruct e. }
  split.
  { intros p ev Hvis Hd.
    assert (v = true ∧ e = false) as [-> ->] by (by destruct v, e).
    assert (pend = []) as ->.
    { destruct pend; [done|]. by specialize (H1 ltac:(done)). }
    assert (dismissibleOf p = false) as Hoff.
    { unfold dismissibleOf. by destruct (dismissible p) as [[]|]. }
    simpl. destruct ev as [|key| |]; simpl;
      unfold handleKeyDown, handleDismiss; simpl; rewrite ?Hoff; simpl;
      rewrite ?andb_false_r; done. }
  split.
  { intros p Hvis Hd.
    assert (v = true ∧ e = false) as [-> ->] by (by destruct v, e).
    assert (pend = []) as ->.
    { destruct pend; [done|]. by specialize (H1 ltac:(done)). }
    simpl. unfold handleDismiss, dismissibleOf. simpl. by rewrite Hd. }
  split.
  { intros p c Hex ->.
    assert (v = true ∧ e = true) as [-> ->] by (by destruct v, e).
    simpl. unfold handleDismiss. simpl.
    destruct (H3 c eq_refl) as [-> Hd]. by rewrite Hd. }
  intros p Hex.
  assert (v = true ∧ e = true) as [-> ->] by (by destruct v, e).
  simpl. unfold timeoutFires. simpl.
  destruct pend as [|c pend]; [|done]. by specialize (H2 eq_refl eq_refl).
Qed.

End AlertMore.

Section RenderMore.
Import React Types.

Lemma object_cons (k : string) (o : option PropValue)
    (es : list (string * option PropValue)) (k' : string) :
  object ((k, o) :: es) !! k'
  = if String.eqb k k'
    then match o with Some v => Some v | None => object es !! k' end
    else object es !! k'.
Proof.
  unfold object. destruct o as [v|]; simpl.
  - rewrite lookup_insert. destruct (String.eqb_spec k k').
    + by rewrite decide_True.
    + by rewrite decide_False.
  - by destruct (String.eqb k k').
Qed.

Lemma object_nil (k : string) : object [] !! k = None.
Proof. done. Qed.

Lemma prefix_app (a b : string) : String.prefix a (a +:+ b) = true.
Proof.
  induction a as [|c a IH]; simpl; [by destruct b|].
  by destruct (Ascii.ascii_dec c c).
Qed.

Lemma prefix_refl (a : string) : String.prefix a a = true.
Proof.
  induction a as [|c a IH]; simpl; [done|].
  by destruct (Ascii.ascii_dec c c).
Qed.

Lemma concat_cons_prefix (sep a : string) (l : list string) :
  String.prefix a (String.concat sep (a :: l)) = true.
Proof.
  destruct l as [|b l]; simpl; [apply prefix_refl|apply prefix_app].
Qed.

(** A class list that starts with the marker yields a class string that
    starts with the marker. *)
Lemma classNames_marker (entries : list (option string)) :
  String.prefix "zyfi-components"
                (classNames (Some "zyfi-components" :: entries)) = true.
Proof. unfold classNames. simpl. apply concat_cons_prefix. Qed.

End RenderMore.

(** Looks a literal key up in a literal props object. *)
Ltac lookup_object :=
  repeat (rewrite object_cons; cbn [String.eqb Ascii.eqb Bool.eqb]);
  rewrite ?object_nil.

Section AlertRendering.
Import React Types Alert MoreAlerts.

(** X15. What an Alert returns, phase by phase.  While visible it is one
    element inside [AnimatePresence]: its class starts with the marker
    class; its role is [alert] for the error variant and [status] for the
    others; its [aria-live] is [assertive] or [polite] accordingly unless
    the caller passes its own; its transition is read from the
    reduced-motion preference during this very render, 0.1 s linear when
    set and 0.3 s ease-out otherwise; and it ends with the dismiss button
    exactly when the alert is dismissible, that is when the [dismissible]
    prop is [true].  While exiting,
    [AnimatePresence] has no child left; once removed, the component
    returns [null]. *)
Theorem alert_rendering
    (styles : string → option string) (reduced : bool)
    (p : AlertProps) (s : State) :
  onlyHyphenated (rest p) →
  match phase s with
  | visible =>
      ∃ ps content button,
        Alert styles reduced p s
        = RElement "AnimatePresence" {[ "mode" := VStr "wait" ]}
            [RElement "motion.div" ps
                      [content; whenB (dismissibleOf p) button]]
        ∧ (∃ c, ps !! "className" = Some (VStr c)
                ∧ String.prefix "zyfi-components" c = true)
        ∧ ps !! "role"
          = Some (VStr (match variant p with
                        | error => "alert" | _ => "status" end))
        ∧ ps !! "aria-live"
          = Some (default (VStr (match variant p with
                                 | error => "assertive" | _ => "polite" end))
                          (rest p !! "aria-live"))
        ∧ ps !! "transition"
          = Some (VTransition
                    (if reduced
                     then Animations.plain 0.1 (Animations.EaseName "linear")
                     else Animations.plain 0.3 (Animations.EaseName "easeOut")))
        ∧ tagOf button = Some "button"
        ∧ propsOf button !! "aria-label" = Some (VStr "Dismiss alert")
        ∧ (dismissibleOf p = true ↔ dismissible p = Some true)
  | exiting =>
      Alert styles reduced p s
      = RElement "AnimatePresence" {[ "mode" := VStr "wait" ]} [RBool false]
  | removed => Alert styles reduced p s = RNull
  end.
Proof.
  intros Hrest. unfold phase, Alert.
  destruct (isVisible s); [|done]. destruct (isExiting s); [done|].
  cbn [negb whenB].
  eexists _, _, _. split; [reflexivity|].
  rewrite !spread_lookup.
  rewrite !(onlyHyphenated_lookup (rest p) "className"),
    !(onlyHyphenated_lookup (rest p) "role"),
    !(onlyHyphenated_lookup (rest p) "transition") by done.
  cbn [app map enterExit]. lookup_object.
  split; [eexists; split; [reflexivity|apply classNames_marker]|].
  split; [by destruct (variant p)|].
  split; [by destruct (rest p !! "aria-live"), (variant p)|].
  split; [by destruct reduced|].
  split; [done|]. split; [cbn [propsOf]; by lookup_object|].
  unfold dismissibleOf. by destruct (dismissible p) as [[]|].
Qed.

Lemma alert_rendering_witness :
  onlyHyphenated (rest (dismissibleAlert error None))
  ∧ Alert Regions.noStyles true (dismissibleAlert error None)
          (step initial (dismissibleAlert error None, RequestDismiss))
    = RElement "AnimatePresence" {[ "mode" := VStr "wait" ]} [RBool false].
Proof.
  assert (onlyHyphenated (rest (dismissibleAlert error None))) as Hrest.
  { intros name [v Hv]. simpl in Hv. by rewrite lookup_empty in Hv. }
  split; [exact Hrest|].
  apply (alert_rendering Regions.noStyles true (dismissibleAlert error None)
           (step initial (dismissibleAlert error None, RequestDismiss)) Hrest).
Defined.

End AlertRendering.

Section ButtonMore.
Import React Types Button MoreProps.

(** X16. The root elements carry the marker class and the caller cannot
    take it away: the [className] that reaches a Button, a Card and a
    Modal's dialog is the component's own class string, which starts with
    [zyfi-components], whatever else the caller passes. *)
Theorem root_elements_carry_the_marker_class
    (styles : string → option string) (w win : option Animations.Window)
    (titleId : string) (visible : bool)
    (b : ButtonProps) (c : Card.CardProps) (m : ModalView.ViewProps) :
  (propsOf (Button styles w b) !! "className"
     = Some (VStr (buttonClasses styles b))
   ∧ String.prefix "zyfi-components" (buttonClasses styles b) = true)
  ∧ (propsOf (Card.Card styles w c) !! "className"
     = Some (VStr (Card.cardClasses styles c))
     ∧ String.prefix "zyfi-components" (Card.cardClasses styles c) = true)
  ∧ (propsOf (ModalView.dialog styles w win titleId m visible) !! "className"
     = Some (VStr (ModalView.modalClasses styles m visible))
     ∧ String.prefix "zyfi-components"
                     (ModalView.modalClasses styles m visible) = true).
Proof.
  split; [|split]; (split; [|apply classNames_marker]).
  - unfold Button. cbn [propsOf]. rewrite !spread_lookup.
    rewrite restOf_named by compute_done.
    rewrite button_motionProps_other by compute_done. by lookup_object.
  - unfold Card.Card. destruct (Card.onClick c); cbn [propsOf];
      rewrite !spread_lookup, restOf_named, card_motionProps_other
        by compute_done; by lookup_object.
  - unfold ModalView.dialog. cbn [propsOf]. rewrite !spread_lookup.
    rewrite restOf_named by compute_done. by lookup_object.
Qed.

(** X17. What the caller can and cannot set on a Button.  [type] is the
    given one and ["button"] by default; it and [disabled] reach the
    element as the component computes them.  Every other attribute the
    caller passes that is not one of the component's own parameters, such
    as [id] or [onClick], reaches the element unchanged. *)
Theorem button_passes_attributes_through
    (styles : string → option string) (w : option Animations.Window)
    (p : ButtonProps) (k : string) (v : PropValue) :
  rest p !! k = Some v → k ∉ named →
  let ps := propsOf (Button styles w p) in
  ps !! k = Some v
  ∧ ps !! "type" = Some (VStr (default "button" (type p)))
  ∧ ps !! "disabled" = Some (VBool (isDisabled p)).
Proof.
  intros Hk Hnamed ps. unfold ps, Button. cbn [propsOf].
  rewrite !spread_lookup.
  rewrite (restOf_other named _ k), Hk by done.
  rewrite !restOf_named by compute_done.
  rewrite !button_motionProps_other by compute_done.
  split; [done|]. by lookup_object.
Qed.

Lemma button_passes_attributes_through_witness :
  rest zeroIconButton !! "onClick" = Some (VFn 3%nat)
  ∧ ("onClick" ∉ named)
  ∧ propsOf (Button Regions.noStyles None zeroIconButton) !! "onClick"
    = Some (VFn 3%nat).
Proof.
  assert ("onClick" ∉ named) as Hn by compute_done.
  split; [reflexivity|]. split; [exact Hn|].
  apply (button_passes_attributes_through Regions.noStyles None
           zeroIconButton "onClick" (VFn 3%nat) eq_refl Hn).
Defined.

(** X18. The icons of a Button that is not loading.  No spinner is
    rendered.  An icon that is truthy is wrapped in an [aria-hidden] span;
    an icon that is falsy is put in the tree as it is, so an absent icon
    renders nothing but the number 0 or an empty string is rendered bare. *)
Theorem button_icons_when_not_loading
    (styles : string → option string) (w : option Animations.Window)
    (p : ButtonProps) :
  default false (loading p) = false →
  let slot cls icon :=
    if truthy icon then iconSpan styles cls icon else icon in
  childrenOf (Button styles w p)
  = [ RBool false; slot "leftIcon" (leftIcon p); content styles p;
      slot "rightIcon" (rightIcon p) ]
  ∧ (∀ cls icon, truthy icon = true →
       propsOf (slot cls icon) !! "aria-hidden" = Some (VStr "true")
       ∧ childrenOf (slot cls icon) = [icon])
  ∧ (∀ cls icon, truthy icon = false →
       rendersNothing (slot cls icon) = rendersNothing icon).
Proof.
  intros Hload slot. unfold Button. cbn [childrenOf]. rewrite Hload.
  split; [done|]. unfold slot. split.
  - intros cls icon ->. unfold iconSpan. cbn [propsOf childrenOf].
    split; [|done]. by lookup_object.
  - by intros cls icon ->.
Qed.

Lemma button_icons_when_not_loading_witness :
  default false (loading zeroIconButton) = false
  ∧ childrenOf (Button Regions.noStyles None zeroIconButton)
    = [ RBool false; RNumber 0;
        content Regions.noStyles zeroIconButton; RUndefined ].
Proof.
  split; [reflexivity|].
  apply (button_icons_when_not_loading Regions.noStyles None zeroIconButton).
  reflexivity.
Defined.

End ButtonMore.

Section CardMore.
Import React Types Card MoreProps.

Lemma card_props_lookup
    (styles : string → option string) (w : option Animations.Window)
    (p : CardProps) (k : string) :
  onlyHyphenated (Card.rest p) → hyphenated k = false →
  k ∈ ["variants"; "initial"; "animate"; "whileHover"; "transition"] →
  propsOf (Card styles w p) !! k = motionProps w p !! k.
Proof.
  intros Hrest Hk Hin.
  assert (restOf named (Card.rest p) !! k = None) as Hnone.
  { destruct (decide (k ∈ named)); [by apply restOf_named|].
    rewrite restOf_other by done. by apply onlyHyphenated_lookup. }
  assert (k ≠ "className" ∧ k ≠ "onClick" ∧ k ≠ "type") as (H1 & H2 & H3).
  { repeat (apply elem_of_cons in Hin as [->|Hin]; [done|]).
    by apply elem_of_nil in Hin. }
  unfold Card. destruct (onClick p); cbn [propsOf];
    rewrite !spread_lookup, Hnone;
    (destruct (motionProps w p !! k); [done|]);
    rewrite !object_cons, object_nil;
    repeat match goal with
           | |- context [String.eqb ?a k] =>
               destruct (String.eqb_spec a k); [congruence|]
           end; done.
Qed.

Lemma card_motion_entrance
    (styles : string → option string) (w : option Animations.Window)
    (p : CardProps) :
  onlyHyphenated (Card.rest p) →
  let ps := propsOf (Card styles w p) in
  let entrance :=
    negb (default false (isStaggerChild p)) && default true (animate p) in
  ps !! "variants"
    = (if entrance then Some (VVariants (Animations.fadeInUp w)) else None)
  ∧ ps !! "initial" = (if entrance then Some (VStr "initial") else None)
  ∧ ps !! "animate" = (if entrance then Some (VStr "animate") else None).
Proof.
  intros Hrest ps entrance. unfold ps, entrance.
  rewrite !(card_props_lookup styles w p) by (done || compute_done).
  unfold motionProps. lookup_object.
  by destruct (default false (isStaggerChild p)), (default true (animate p)).
Qed.

(** X19. The motion of a Card, for a caller that respects [CardProps].
    The entrance animation ([variants], [initial], [animate]) is on the
    element exactly when the card is not a stagger child and [animate] is
    not false.  The hover lift is there exactly when [hover] is set or an
    [onClick] is given.  A [transition] is there exactly when an
    [animationDelay] other than zero is given, and then it carries that
    delay and nothing else. *)
Theorem card_motion
    (styles : string → option string) (w : option Animations.Window)
    (p : CardProps) :
  onlyHyphenated (Card.rest p) →
  let ps := propsOf (Card styles w p) in
  let entrance :=
    negb (default false (isStaggerChild p)) && default true (animate p) in
  ps !! "variants"
    = (if entrance then Some (VVariants (Animations.fadeInUp w)) else None)
  ∧ ps !! "initial" = (if entrance then Some (VStr "initial") else None)
  ∧ ps !! "animate" = (if entrance then Some (VStr "animate") else None)
  ∧ (is_Some (ps !! "whileHover")
     ↔ default false (hover p) = true ∨ is_Some (onClick p))
  ∧ ps !! "transition"
    = match animationDelay p with
      | Some d =>
          if Qeq_bool d 0 then None
          else Some (VTransition
                       (Animations.mkTransition None None None None None
                                                (Some d)))
      | None => None
      end.
Proof.
  intros Hrest ps entrance.
  destruct (card_motion_entrance styles w p Hrest) as (Hv & Hi & Ha).
  split; [exact Hv|]. split; [exact Hi|]. split; [exact Ha|].
  unfold ps. rewrite !(card_props_lookup styles w p) by (done || compute_done).
  unfold motionProps, isInteractive. lookup_object. split.
  - destruct (default false (hover p)), (onClick p) as [h|]; simpl; split;
      try (intros _; by eauto); try (by eexists);
      try (intros [? ?]; done); intros [?|[? ?]]; done.
  - by destruct (animationDelay p) as [d|]; [destruct (Qeq_bool d 0)|].
Qed.

Lemma card_motion_witness :
  onlyHyphenated (Card.rest clickableCard)
  ∧ propsOf (Card Regions.noStyles None clickableCard) !! "initial"
    = Some (VStr "initial").
Proof.
  assert (onlyHyphenated (Card.rest clickableCard)) as Hrest.
  { intros name. unfold clickableCard, Card.rest.
    destruct (decide (name = "data-testid")) as [->|Hne]; [done|].
    rewrite lookup_singleton_ne by done. by intros [? ?]. }
  split; [exact Hrest|].
  apply (card_motion Regions.noStyles None clickableCard Hrest).
Defined.

Lemma childrenMap_mapChild (cs : CardGroup.Children) :
  CardGroup.childrenMap CardGroup.mapChild cs
  = map CardGroup.mapChild
        (List.filter (fun c => negb (CardGroup.emptyNode c))
                     (CardGroup.leaves cs)).
Proof.
  unfold CardGroup.childrenMap.
  induction (CardGroup.leaves cs) as [|c l IH]; [done|]. simpl.
  destruct c as [c|n]; simpl; [by rewrite IH|].
  destruct n; simpl; by rewrite IH.
Qed.

(** X20. A CardContainer walks its children as [React.Children.map] does:
    arrays are flattened, and [undefined], [null] and booleans are left
    out.  Of the nodes that remain, in their order, every Card is handed on
    as a stagger child and every other node is left as it is.  A Card so
    marked is rendered without an entrance animation of its own, whatever
    its own [animate] and [isStaggerChild] say, so that it follows the
    container's stagger; the container itself carries the
    [staggerContainer] variants, and none of its rendered children is an
    empty node. *)
Theorem container_marks_cards_as_stagger_children
    (styles : string → option string) (w : option Animations.Window)
    (p : CardGroup.CardContainerProps) (i : nat) :
  onlyHyphenated (CardGroup.rest p) →
  let node := CardGroup.CardContainer styles w p in
  let kept :=
    List.filter
      (fun c => match c with
                | CardGroup.OtherChild (RUndefined | RNull | RBool _) => false
                | _ => true
                end)
      (CardGroup.leaves (CardGroup.children p)) in
  length (childrenOf node) = length kept
  ∧ propsOf node !! "variants"
    = Some (VVariants Animations.staggerContainer)
  ∧ (∀ n, kept !! i = Some (CardGroup.OtherChild n) →
          childrenOf node !! i = Some n)
  ∧ (∀ c, kept !! i = Some (CardGroup.CardChild c) →
          onlyHyphenated (Card.rest c) →
          ∃ rendered,
            childrenOf node !! i = Some rendered
            ∧ rendered = Card styles w (CardGroup.asStaggerChild c)
            ∧ propsOf rendered !! "variants" = None
            ∧ propsOf rendered !! "initial" = None
            ∧ propsOf rendered !! "animate" = None
            ∧ propsOf rendered !! "className"
              = Some (VStr (cardClasses styles c)))
  ∧ (∀ n, n ∈ childrenOf node →
          n ≠ RUndefined ∧ n ≠ RNull ∧ ∀ b, n ≠ RBool b).
Proof.
  intros Hrest node kept.
  assert (childrenOf node
          = map (fun c => CardGroup.renderChild styles w (CardGroup.mapChild c))
                kept) as Hchildren.
  { unfold node, CardGroup.CardContainer. cbn [childrenOf].
    rewrite childrenMap_mapChild, map_map. f_equal. unfold kept.
    apply filter_ext. intros [c|[]]; done. }
  rewrite Hchildren.
  split; [by rewrite length_map|]. split.
  { unfold node, CardGroup.CardContainer. cbn [propsOf].
    rewrite spread_lookup, restOf_other by compute_done.
    rewrite (onlyHyphenated_lookup _ "variants") by done. by lookup_object. }
  split.
  { intros n Hn. by rewrite list_lookup_fmap, Hn. }
  split.
  { intros c Hc Hcrest. exists (Card styles w (CardGroup.asStaggerChild c)).
    split; [by rewrite list_lookup_fmap, Hc|].
    split; [done|].
    assert (onlyHyphenated (Card.rest (CardGroup.asStaggerChild c))) as Hrest'
      by done.
    destruct (card_motion_entrance styles w (CardGroup.asStaggerChild c) Hrest')
      as (-> & -> & ->).
    split; [done|]. split; [done|]. split; [done|].
    unfold Card.
    change (onClick (CardGroup.asStaggerChild c)) with (onClick c).
    destruct (onClick c); cbn [propsOf];
      rewrite !spread_lookup, restOf_named, card_motionProps_other
        by compute_done; by lookup_object. }
  intros n (c & -> & Hc)%list_elem_of_fmap.
  apply list_elem_of_In, filter_In in Hc as [_ Hc].
  destruct c as [c|m]; simpl.
  - unfold Card. by destruct (onClick (CardGroup.asStaggerChild c)).
  - by destruct m.
Qed.

Lemma container_marks_cards_as_stagger_children_witness :
  onlyHyphenated (CardGroup.rest sparseChildren)
  ∧ childrenOf (CardGroup.CardContainer Regions.noStyles None sparseChildren)
    = childrenOf (CardGroup.CardContainer Regions.noStyles None twoChildren)
  ∧ length (childrenOf (CardGroup.CardContainer Regions.noStyles None
                          sparseChildren)) = 2%nat
  ∧ childrenOf (CardGroup.CardContainer Regions.noStyles None sparseChildren)
    !! 1%nat = Some (RText "note").
Proof.
  assert (onlyHyphenated (CardGroup.rest sparseChildren)) as Hrest.
  { intros name [v Hv]. simpl in Hv. by rewrite lookup_empty in Hv. }
  split; [exact Hrest|]. split; [reflexivity|].
  pose proof (container_marks_cards_as_stagger_children Regions.noStyles None
                sparseChildren 1 Hrest) as (Hlen & _ & Hother & _).
  split; [exact Hlen|]. by apply Hother.
Defined.

End CardMore.

Section ModalViewMore.
Import React Types ModalRegions MoreProps.

Lemma useModalContext_nearest
    (nearer : list Ancestor) (v : ModalContextValue) (farther : list Ancestor) :
  useModalContext nearer = None →
  useModalContext (nearer ++ ModalAbove v :: farther) = Some v.
Proof.
  unfold useModalContext.
  induction nearer as [|[v'| |name] nearer IH]; simpl; try done.
Qed.

(** X21. A header takes its context from the nearest Modal above it, not
    from an outer one: the title element gets that Modal's title id, and
    the close button, present unless [showCloseButton] is false, calls
    that Modal's [onClose]. *)
Theorem modal_header_uses_the_nearest_modal
    (styles : string → option string)
    (nearer : list Ancestor) (v : ModalContextValue) (farther : list Ancestor)
    (p : ModalHeaderProps) :
  useModalContext nearer = None →
  ∃ ps titleElement button,
    ModalHeader styles (nearer ++ ModalAbove v :: farther) p
    = Returns (RElement "div" ps
                 [titleElement; whenB (default true (showCloseButton p)) button])
    ∧ propsOf titleElement !! "id" = Some (VStr (titleId v))
    ∧ childrenOf titleElement = [children (base p)]
    ∧ tagOf button = Some "motion.button"
    ∧ propsOf button !! "onClick" = Some (VFn (onClose v))
    ∧ propsOf button !! "type" = Some (VStr "button")
    ∧ propsOf button !! "aria-label" = Some (VStr "Close modal").
Proof.
  intros Hnear. unfold ModalHeader.
  rewrite (useModalContext_nearest nearer v farther Hnear).
  eexists _, _, _. split; [reflexivity|]. cbn [propsOf childrenOf tagOf].
  repeat split; by lookup_object.
Qed.

Lemma modal_header_uses_the_nearest_modal_witness :
  useModalContext [OtherAbove "section"; CardAbove] = None
  ∧ ∃ ps titleElement button,
      ModalHeader Regions.noStyles nested Regions.textRegion
      = Returns (RElement "div" ps [titleElement; button])
      ∧ propsOf titleElement !! "id" = Some (VStr "modal-title-inner").
Proof.
  split; [reflexivity|].
  destruct (modal_header_uses_the_nearest_modal Regions.noStyles
              [OtherAbove "section"; CardAbove] innerModal
              [ModalAbove outerModal] Regions.textRegion eq_refl)
    as (ps & t & b & Hr & Hid & _).
  exists ps, t, b. split; [exact Hr|exact Hid].
Defined.

Lemma modal_variants_differ (load : option Animations.Window) :
  Animations.modalMobileSlide load ≠ Animations.modalEnter load.
Proof. intros H. apply (f_equal Animations.v_initial) in H. discriminate H. Qed.

(** X22. What a Modal returns, for a caller that respects [ModalProps].
    Closed, [AnimatePresence] has no child: neither backdrop nor dialog is
    in the tree.  Open, its one child is the backdrop, which is
    [aria-hidden], carries the click handler and contains the dialog.  The
    dialog has role [dialog] and [tabIndex] -1, so it can take focus by
    script without joining the tab order; it is marked [aria-modal] unless
    the caller passes its own value; and it enters with the mobile slide
    exactly when the [mobileSlide] prop is not [false] (left out or
    [true]) and the window exists and is at most 640 wide at render time,
    and with the ordinary entrance otherwise. *)
Theorem modal_view
    (styles : string → option string) (load win : option Animations.Window)
    (titleId : string) (handler : nat) (v : ModalView.ViewProps)
    (visible : bool) :
  onlyHyphenated (ModalView.rest v) →
  let tree := ModalView.Modal styles load win titleId handler v visible in
  let back := ModalView.backdrop styles load win titleId handler v visible in
  let ps := propsOf (ModalView.dialog styles load win titleId v visible) in
  tree = RElement "AnimatePresence" {[ "mode" := VStr "wait" ]}
           [if Modal.isOpen (ModalView.props v) then back else RBool false]
  ∧ propsOf back !! "aria-hidden" = Some (VStr "true")
  ∧ propsOf back !! "onClick" = Some (VFn handler)
  ∧ childrenOf back = [ModalView.dialog styles load win titleId v visible]
  ∧ ps !! "role" = Some (VStr "dialog")
  ∧ ps !! "tabIndex" = Some (VNum (-1))
  ∧ ps !! "aria-modal"
    = Some (default (VStr "true") (ModalView.rest v !! "aria-modal"))
  ∧ (ps !! "variants"
       = Some (VVariants (Animations.modalMobileSlide load))
     ↔ Modal.mobileSlide (ModalView.props v) ≠ Some false
       ∧ ∃ w, win = Some w ∧ Animations.innerWidth w ≤ 640)
  ∧ (ps !! "variants" = Some (VVariants (Animations.modalMobileSlide load))
     ∨ ps !! "variants" = Some (VVariants (Animations.modalEnter load)))
  ∧ (Modal.mobileSlide (ModalView.props v) = Some false →
     ps !! "variants" = Some (VVariants (Animations.modalEnter load))).
Proof.
  intros Hrest tree back ps.
  split; [unfold tree, ModalView.Modal, whenB; done|].
  assert (ps !! "variants"
          = Some (VVariants (ModalView.modalVariant load win v))) as Hvar.
  { unfold ps, ModalView.dialog. cbn [propsOf].
    rewrite spread_lookup, restOf_other by compute_done.
    rewrite (onlyHyphenated_lookup _ "variants") by done. by lookup_object. }
  assert (ps !! "role" = Some (VStr "dialog")
          ∧ ps !! "tabIndex" = Some (VNum (-1))
          ∧ ps !! "aria-modal"
            = Some (default (VStr "true") (ModalView.rest v !! "aria-modal")))
    as (Hrole & Htab & Hmodal).
  { unfold ps, ModalView.dialog. cbn [propsOf].
    rewrite !spread_lookup, !restOf_other by compute_done.
    rewrite (onlyHyphenated_lookup _ "role"),
      (onlyHyphenated_lookup _ "tabIndex") by done.
    split; [by lookup_object|]. split; [by lookup_object|].
    by destruct (ModalView.rest v !! "aria-modal"); lookup_object. }
  unfold back, ModalView.backdrop. cbn [propsOf childrenOf].
  split; [by lookup_object|]. split; [by lookup_object|]. split; [done|].
  split; [exact Hrole|]. split; [exact Htab|]. split; [exact Hmodal|].
  rewrite Hvar. unfold ModalView.modalVariant, ModalView.isMobile.
  assert (Modal.mobileSlideOf (ModalView.props v) = true
          ↔ Modal.mobileSlide (ModalView.props v) ≠ Some false) as Hslide.
  { unfold Modal.mobileSlideOf.
    by destruct (Modal.mobileSlide (ModalView.props v)) as [[]|]. }
  destruct (Modal.mobileSlideOf (ModalView.props v)); simpl.
  - assert (Modal.mobileSlide (ModalView.props v) ≠ Some false) as Hon
      by by apply Hslide.
    destruct win as [w|].
    + destruct (Z.leb_spec (Animations.innerWidth w) 640).
      * split; [|split; [by left|done]].
        split; [intros _; split; [done|by eauto]|done].
      * split; [|split; [by right|done]]. split.
        -- intros Heq. exfalso. apply (modal_variants_differ load). congruence.
        -- intros [_ (w' & [= <-] & ?)]. lia.
    + split; [|split; [by right|done]]. split.
      * intros Heq. exfalso. apply (modal_variants_differ load). congruence.
      * intros [_ (w' & ? & _)]. done.
  - split; [|split; [by right|done]]. split.
    + intros Heq. exfalso. apply (modal_variants_differ load). congruence.
    + intros [Hon _]. by apply Hslide in Hon.
Qed.

Lemma modal_view_witness :
  onlyHyphenated (ModalView.rest ModalView.titled)
  ∧ Modal.mobileSlide (ModalView.props ModalView.titled) = None
  ∧ propsOf (ModalView.dialog Regions.noStyles None
               (Some (Animations.mkWindow false 390)) "modal-title-x"
               ModalView.titled true) !! "role"
    = Some (VStr "dialog")
  ∧ propsOf (ModalView.dialog Regions.noStyles None
               (Some (Animations.mkWindow false 390)) "modal-title-x"
               ModalView.titled true) !! "variants"
    = Some (VVariants (Animations.modalMobileSlide None)).
Proof.
  assert (onlyHyphenated (ModalView.rest ModalView.titled)) as Hrest.
  { intros name [x Hx]. simpl in Hx. by rewrite lookup_empty in Hx. }
  split; [exact Hrest|]. split; [reflexivity|].
  pose proof (modal_view Regions.noStyles None
                (Some (Animations.mkWindow false 390)) "modal-title-x" 0
                ModalView.titled true Hrest)
    as (_ & _ & _ & _ & Hrole & _ & _ & Hslide & _).
  split; [exact Hrole|]. apply Hslide. split; [discriminate|].
  exists (Animations.mkWindow false 390). split; [reflexivity|].
  simpl. lia.
Defined.

(** X23. The dialog is labelled by the header's title element, but only
    through the [title] prop.  The header directly inside a Modal puts the
    Modal's title id on its title element.  The dialog refers to that same
    id in [aria-labelledby] when a non-empty [title] is passed and the
    caller passes no [aria-labelledby] of its own; without such a title the
    dialog has no [aria-labelledby] of the Modal's making, although the
    header still carries the id.  An [aria-labelledby] passed by the caller
    is what the dialog carries, with or without a title. *)
Theorem dialog_is_labelled_by_the_header_title
    (styles : string → option string) (load win : option Animations.Window)
    (id : string) (v : ModalView.ViewProps) (visible : bool)
    (nearer farther : list Ancestor) (header : ModalHeaderProps) :
  useModalContext nearer = None →
  let provided := mkContext (ModalView.onClose v) id in
  let own := ModalView.rest v !! "aria-labelledby" in
  let labelled :=
    propsOf (ModalView.dialog styles load win id v visible)
      !! "aria-labelledby" in
  (∃ ps titleElement others,
     ModalHeader styles (nearer ++ ModalAbove provided :: farther) header
     = Returns (RElement "div" ps (titleElement :: others))
     ∧ propsOf titleElement !! "id" = Some (VStr id))
  ∧ (∀ t, Modal.title (ModalView.props v) = Some t → t ≠ "" →
          labelled = Some (default (VStr id) own))
  ∧ (Modal.title (ModalView.props v) = None
     ∨ Modal.title (ModalView.props v) = Some "" →
     labelled = own)
  ∧ (∀ x, own = Some x → labelled = Some x).
Proof.
  intros Hnear provided own labelled. split.
  { unfold ModalHeader.
    rewrite (useModalContext_nearest nearer provided farther Hnear).
    eexists _, _, _. split; [reflexivity|]. cbn [propsOf]. by lookup_object. }
  assert (labelled = match own with
                     | Some x => Some x
                     | None => ModalView.labelledBy id v
                     end) as ->.
  { unfold labelled, own, ModalView.dialog. cbn [propsOf].
    rewrite spread_lookup, restOf_other by compute_done.
    destruct (ModalView.rest v !! "aria-labelledby"); [done|].
    lookup_object. by destruct (ModalView.labelledBy id v). }
  unfold ModalView.labelledBy. split; [|split].
  - intros t -> Ht. destruct own; [done|].
    by destruct (String.eqb_spec t "").
  - intros [-> | ->]; by destruct own.
  - by intros x ->.
Qed.

Lemma dialog_is_labelled_by_the_header_title_witness :
  useModalContext [CardAbove] = None
  ∧ ModalView.rest ModalView.titled !! "aria-labelledby" = None
  ∧ propsOf (ModalView.dialog Regions.noStyles None None "modal-title-x"
               ModalView.titled true) !! "aria-labelledby"
    = Some (VStr "modal-title-x").
Proof.
  split; [reflexivity|]. split; [reflexivity|].
  destruct (dialog_is_labelled_by_the_header_title Regions.noStyles None None
              "modal-title-x" ModalView.titled true [CardAbove] []
              Regions.textRegion eq_refl) as (_ & H & _).
  apply (H "Settings"); [reflexivity|discriminate].
Defined.

End ModalViewMore.

Section AnimationsMore.
Import React Types Animations.

(** X24. [getTransition] only ever touches the duration: easing, repeat
    count and delays come back as given, also for a transition that had no
    duration, which then gains one of 0.01 s.  Applying it twice is the
    same as applying it once.  Where there is no [window], and whenever
    the preference is not set, it returns its argument. *)
Theorem getTransition_changes_only_the_duration
    (w : option Window) (t : Transition) :
  ease (getTransition w t) = ease t
  ∧ repeat (getTransition w t) = repeat t
  ∧ staggerChildren (getTransition w t) = staggerChildren t
  ∧ delayChildren (getTransition w t) = delayChildren t
  ∧ delay (getTransition w t) = delay t
  ∧ duration (getTransition w t)
    = (if shouldReduceMotion w then Some 0.01%Q else duration t)
  ∧ getTransition w (getTransition w t) = getTransition w t
  ∧ getTransition None t = t
  ∧ (∀ width, getTransition (Some (mkWindow false width)) t = t).
Proof.
  unfold getTransition. destruct (shouldReduceMotion w); by repeat split.
Qed.

(** X25. With the preference set when the module is evaluated, hovering
    and loading stop moving things: the hover lift a clickable Card is
    rendered with moves it by 0 instead of -2, the Button's hover preset
    scales by 1 instead of 1.02 and 0.98, and the spinner of a loading
    Button turns by 0 degrees for 0 seconds with no repetition instead of
    360 degrees in 1 second for ever. *)
Theorem reduced_motion_at_load_stills_hover_and_spinner
    (styles : string → option string) (w : option Window)
    (c : Card.CardProps) (handler : nat) :
  onlyHyphenated (Card.rest c) → Card.onClick c = Some handler →
  let reduced := shouldReduceMotion w in
  propsOf (Card.Card styles w c) !! "whileHover"
    = Some (VTarget
              (mkTarget [("y", Num (if reduced then 0 else -2))]
                        (Some (getTransition w transitions_base))))
  ∧ (values <$> v_hover (buttonHover w))
    = Some [("scale", Num (if reduced then 1 else 1.02))]
  ∧ (values <$> v_tap (buttonHover w))
    = Some [("scale", Num (if reduced then 1 else 0.98))]
  ∧ propsOf (Button.spinner styles w) !! "variants"
    = Some (VVariants (spinnerRotate w))
  ∧ v_animate (spinnerRotate w)
    = Some (mkTarget
              [("rotate", Num (if reduced then 0 else 360))]
              (Some (mkTransition
                       (Some (if reduced then 0 else 1)%Q)
                       (Some (EaseName "linear"))
                       (Some (if reduced then Finite 0 else Infinity))
                       None None None))).
Proof.
  intros Hrest Hclick reduced. split.
  { unfold Card.Card. rewrite Hclick. cbn [propsOf].
    rewrite !spread_lookup, restOf_other by compute_done.
    rewrite (onlyHyphenated_lookup _ "whileHover") by done.
    unfold Card.motionProps, Card.isInteractive. rewrite Hclick.
    lookup_object. by rewrite orb_true_r. }
  split; [done|]. split; [done|]. split; [|done].
  unfold Button.spinner. cbn [propsOf]. by lookup_object.
Qed.

Lemma reduced_motion_at_load_stills_hover_and_spinner_witness :
  onlyHyphenated (Card.rest Card.clickableCard)
  ∧ Card.onClick Card.clickableCard = Some 7%nat
  ∧ propsOf (Card.Card Regions.noStyles (Some (mkWindow true 1280))
               Card.clickableCard) !! "whileHover"
    = Some (VTarget (mkTarget [("y", Num 0)]
                              (Some (withDuration transitions_base 0.01)))).
Proof.
  assert (onlyHyphenated (Card.rest Card.clickableCard)) as Hrest.
  { intros name. unfold Card.clickableCard, Card.rest.
    destruct (decide (name = "data-testid")) as [->|Hne]; [done|].
    rewrite lookup_singleton_ne by done. by intros [? ?]. }
  split; [exact Hrest|]. split; [reflexivity|].
  apply (reduced_motion_at_load_stills_hover_and_spinner Regions.noStyles
           (Some (mkWindow true 1280)) Card.clickableCard 7 Hrest eq_refl).
Defined.

End AnimationsMore.

Section ClassNamesMore.
Import React Types.

Lemma concat_nonempty (a : string) (l : list string) :
  a ≠ "" → String.concat " " (a :: l) ≠ "".
Proof.
  intros Ha. destruct l as [|b l]; simpl; [done|].
  destruct a as [|c a]; [done|]. discriminate.
Qed.

(** X26. How a class string is put together.  Entries that are absent or
    the empty string leave no trace, wherever they stand in the list; the
    classes that remain are joined by single spaces in their order; and
    the result is empty exactly when no entry is a non-empty string. *)
Theorem classNames_skips_absent_entries
    (before after : list (option string)) (a : string) :
  classNames (before ++ None :: after) = classNames (before ++ after)
  ∧ classNames (before ++ Some "" :: after) = classNames (before ++ after)
  ∧ (a ≠ "" →
     classNames (Some a :: after)
     = if String.eqb (classNames after) "" then a
       else a +:+ " " +:+ classNames after)
  ∧ (classNames after = ""
     ↔ ∀ c, Some c ∈ after → c = "").
Proof.
  unfold classNames.
  split; [by rewrite !omap_app|].
  split; [rewrite !omap_app, !List.filter_app; by simpl|].
  split.
  { intros Ha.
    change (omap id (Some a :: after)) with (a :: omap id after).
    cbn [List.filter]. destruct (String.eqb_spec a "") as [|_]; [done|].
    cbn [negb].
    assert (Forall (fun c => c ≠ "")
                   (List.filter (fun c => negb (String.eqb c ""))
                                (omap id after))) as Hall.
    { apply Forall_forall. intros c Hc%list_elem_of_In.
      apply filter_In in Hc as [_ Hc]. by destruct (String.eqb_spec c ""). }
    destruct (List.filter _ (omap id after)) as [|b l]; [done|].
    apply Forall_cons in Hall as [Hb _].
    destruct (String.eqb_spec (String.concat " " (b :: l)) "") as [He|_];
      [by apply concat_nonempty in He|done]. }
  induction after as [|[c|] after IH]; simpl.
  - split; [|done]. intros _ c Hc. by apply elem_of_nil in Hc.
  - destruct (String.eqb_spec c "") as [->|Hc]; simpl.
    + rewrite IH. split.
      * intros H c [[= ->]|Hc]%elem_of_cons; [done|by apply H].
      * intros H c Hc. apply H. by right.
    + split; [intros He; by apply concat_nonempty in He|].
      intros H. exfalso. apply Hc, H. left.
  - rewrite IH. split.
    + intros H c [[=]|Hc]%elem_of_cons. by apply H.
    + intros H c Hc. apply H. by right.
Qed.

End ClassNamesMore.

Section ScrollLockAnyOrder.
Import ScrollLock.

(** X27. The scroll lock follows the open modals in any interleaving, not
    only when all are opened before any is closed: after any sequence of
    modals opening and closing, each through its own effect and cleanup,
    the counter is the number of modals open, the override is held exactly
    when that number is not zero, and with none open the state is the one
    the page started with. *)
Theorem scroll_lock_in_any_interleaving (s0 : string) (evs : list Event) :
  let w := run (initialWorld s0) evs in
  scrollLockCounter (lock w) = Z.of_nat (length (openModals w))
  ∧ NoDup (openModals w)
  ∧ (scrollLocked (lock w) ↔ openModals w ≠ [])
  ∧ (openModals w ≠ [] →
     bodyOverflow (lock w) = "hidden" ∧ originalBodyStyle (lock w) = Some s0)
  ∧ (openModals w = [] → lock w = initial s0).
Proof.
  intros w.
  assert (lock_inv s0 w) as (Hnd & Hc & Hs) by apply run_inv, initial_inv.
  split; [done|]. split; [done|].
  destruct w as [[c o b] ms]; simpl in *. destruct ms as [|m ms]; simpl in *.
  - destruct Hs as [-> ->]. subst c. unfold scrollLocked. simpl.
    repeat split; try done. by intros [_ ?].
  - destruct Hs as [-> ->]. unfold scrollLocked. simpl. by repeat split.
Qed.

End ScrollLockAnyOrder.
